(** * A middleware pipeline for procedures: error codes, the chain builder
      and the reusable middlewares of [examples/v10/lib/middleware.ts].

    The TypeScript module is embedded shallowly.  JavaScript values are a
    small inductive type whose objects are finite maps from property names
    to values; a function value is a reference (its identity), and what a
    call of it does is given by the world the program runs in.  An
    [async] function is a program of the monad [M]: it returns, throws
    (its promise rejects) or calls a function value and goes on with what
    the call returned ([await]). *)

From Stdlib Require Import ZArith.
From stdpp Require Import gmap strings list fin_maps pretty.

Local Open Scope string_scope.
Local Open Scope list_scope.

(** ** JavaScript values *)

(** The identity of a function value. *)
Definition fid := nat.

(** Numbers are the integers the module uses; [VError name message] is an
    error object such as [new Error('Unimplemented')]. *)
#[warnings="-register-all"]
Inductive value : Type :=
| VUndefined
| VNull
| VBool (b : bool)
| VNum (z : Z)
| VStr (s : string)
| VFun (f : fid)
| VError (name message : string)
| VObj (fields : gmap string value).

Abbreviation obj := (gmap string value).

(** The result of evaluating an expression or of a settled promise: a value,
    or a thrown fault. *)
Inductive outcome (A : Type) : Type :=
| Returned (a : A)
| Thrown (e : value).
Arguments Returned {A} a.
Arguments Thrown {A} e.

Definition fields_of (v : value) : gmap string value :=
  match v with
  | VObj o => o
  | _ => ∅
  end.

(** ** The JavaScript operations the module uses *)

(** The fault of reading a property of [undefined] or [null], of applying
    [in] to a primitive and of calling what is no function.  Its message
    depends on the engine and is left empty. *)
Definition TypeError : value := VError "TypeError" EmptyString.

(** [!v] is [negb (truthy v)]. *)
Definition truthy (v : value) : bool :=
  match v with
  | VUndefined | VNull => false
  | VBool b => b
  | VNum z => negb (Z.eqb z 0)
  | VStr s => negb (String.eqb s EmptyString)
  | VFun _ | VError _ _ | VObj _ => true
  end.

(** [v.k].  The properties the module reads ([rawInput], [success],
    [error], [next], [ctx], [user]) are on no prototype, so own properties
    decide; of an error object [name] and [message] are kept. *)
Definition get_prop (v : value) (k : string) : outcome value :=
  match v with
  | VUndefined | VNull => Thrown TypeError
  | VObj o => Returned (default VUndefined (o !! k))
  | VError name message =>
      Returned (if String.eqb k "name" then VStr name
                else if String.eqb k "message" then VStr message
                else VUndefined)
  | VBool _ | VNum _ | VStr _ | VFun _ => Returned VUndefined
  end.

(** [k in v], for the key the module asks for ([ctx]), which only an
    object's own properties can hold. *)
Definition has_prop (k : string) (v : value) : outcome bool :=
  match v with
  | VObj o => Returned (bool_decide (is_Some (o !! k)))
  | VFun _ | VError _ _ => Returned false
  | VUndefined | VNull | VBool _ | VNum _ | VStr _ => Thrown TypeError
  end.

(** The characters of a string as an object indexed from [i]. *)
Fixpoint spread_string (i : nat) (s : string) : gmap string value :=
  match s with
  | EmptyString => ∅
  | String c rest =>
      <[pretty i := VStr (String c EmptyString)]> (spread_string (S i) rest)
  end.

(** [{...v}]: the own enumerable properties of [v]. *)
Definition spread (v : value) : gmap string value :=
  match v with
  | VObj o => o
  | VStr s => spread_string 0 s
  | _ => ∅
  end.

(** ** The error code table *)

(** [TRPC_ERROR_CODES_BY_KEY], the object literal, entry by entry. *)
Definition TRPC_ERROR_CODES_BY_KEY_entries : list (string * Z) :=
  [ ("PARSE_ERROR", (-32700)%Z);
    ("BAD_REQUEST", (-32600)%Z);
    ("INTERNAL_SERVER_ERROR", (-32603)%Z);
    ("UNAUTHORIZED", (-32001)%Z);
    ("FORBIDDEN", (-32003)%Z);
    ("NOT_FOUND", (-32004)%Z);
    ("METHOD_NOT_SUPPORTED", (-32005)%Z);
    ("TIMEOUT", (-32008)%Z);
    ("PRECONDITION_FAILED", (-32012)%Z);
    ("PAYLOAD_TOO_LARGE", (-32013)%Z);
    ("CLIENT_CLOSED_REQUEST", (-32099)%Z) ].

Definition TRPC_ERROR_CODES_BY_KEY : gmap string Z :=
  list_to_map TRPC_ERROR_CODES_BY_KEY_entries.

(** [type ErrorCode = keyof typeof TRPC_ERROR_CODES_BY_KEY]. *)
Definition ErrorCode (name : string) : Prop :=
  is_Some (TRPC_ERROR_CODES_BY_KEY !! name).

(** The names of the table of the specification, in its order. *)
Definition spec_error_names : list string :=
  [ "PARSE_ERROR"; "BAD_REQUEST"; "INTERNAL_SERVER_ERROR"; "UNAUTHORIZED";
    "FORBIDDEN"; "NOT_FOUND"; "METHOD_NOT_SUPPORTED"; "TIMEOUT";
    "PRECONDITION_FAILED"; "PAYLOAD_TOO_LARGE"; "CLIENT_CLOSED_REQUEST" ].

(** ** Programs: the monad of [async] functions *)

(** A program returns, throws, or calls the function value [f] on [arg] and
    continues with what the call returned.  A call that throws ends the
    program with that fault: the module has no [try]. *)
Inductive M (A : Type) : Type :=
| Ret (a : A)
| Throw (e : value)
| Call (f : fid) (arg : value) (k : value → M A).
Arguments Ret {A} a.
Arguments Throw {A} e.
Arguments Call {A} f arg k.

Fixpoint bind {A B : Type} (m : M A) (k : A → M B) : M B :=
  match m with
  | Ret a => k a
  | Throw e => Throw e
  | Call f arg k' => Call f arg (fun v => bind (k' v) k)
  end.

#[global] Instance M_ret : MRet M := @Ret.
#[global] Instance M_bind : MBind M := fun A B k m => bind m k.

Definition lift {A : Type} (o : outcome A) : M A :=
  match o with
  | Returned a => Ret a
  | Thrown e => Throw e
  end.

(** [f(arg)]: calling what is no function is a [TypeError]. *)
Definition call (f : value) (arg : value) : M value :=
  match f with
  | VFun n => Call n arg Ret
  | _ => Throw TypeError
  end.

(** A function of the environment (a validator, a context derivation, a
    [next], a stage, a resolver), called through its identity. *)
Definition extern (f : fid) : value → M value :=
  fun arg => Call f arg Ret.

(** ** Running a program in a world *)

Inductive event : Type :=
| Called (f : fid) (arg : value).

Section Run.

Context {St : Type}.

(** What the function values do: a call reads and writes the state of the
    world (a resolver may ask [Math.random()]) and returns or throws. *)
Definition world : Type := fid → value → St → outcome value * St.

(** The outcome of a program, the state it leaves and the calls it made, in
    order. *)
Fixpoint run {A : Type} (w : world) (m : M A) (s : St)
  : outcome A * St * list event :=
  match m with
  | Ret a => (Returned a, s, [])
  | Throw e => (Thrown e, s, [])
  | Call f arg k =>
      match w f arg s with
      | (Returned v, s') =>
          let '(r, s'', t) := run w (k v) s' in (r, s'', Called f arg :: t)
      | (Thrown e, s') => (Thrown e, s', [Called f arg])
      end
  end.

End Run.

(** The parts of what [run] gives. *)
Definition outcome_of {A St : Type} (r : outcome A * St * list event)
  : outcome A := r.1.1.
Definition state_of {A St : Type} (r : outcome A * St * list event) : St :=
  r.1.2.
Definition trace_of {A St : Type} (r : outcome A * St * list event)
  : list event := r.2.

(** ** The chain builder *)

(** [function middlewares(...args: any): any], the one implementation behind
    the three overloads: the arguments are the stages followed by the
    resolver. *)
Definition middlewares (args : list value) : M value :=
  Throw (VError "Error" "Unimplemented").

(** [pipedResolver<TContext>()] returns [middlewares]. *)
Definition pipedResolver (_ : unit) : list value → M value := middlewares.

(** [const pipe = pipedResolver<TestContext>()]. *)
Definition pipe : list value → M value := pipedResolver tt.

(** [const procedure = pipe(...args); procedure(params)]: building a
    procedure from its stages and resolver and invoking it. *)
Definition invoke (args : list value) (params : value) : M value :=
  procedure ← pipe args;
  call procedure params.

(** ** Results *)

(** [{ error: { code } }] and [{ error: { code, cause } }]. *)
Definition failure (code : string) : value :=
  VObj {[ "error" := VObj {[ "code" := VStr code ]} ]}.

Definition failure_with_cause (code : string) (cause : value) : value :=
  VObj {[ "error" := VObj (<["cause" := cause]> {[ "code" := VStr code ]}) ]}.

(** ** The reusable middlewares *)

(** What [zod] uses of a schema. *)
Record ZodTypeAny : Type := { safeParseAsync : value → M value }.

(** [zod(schema)], the [async function parser(params)]. *)
Definition zod (schema : ZodTypeAny) (params : value) : M value :=
  rawInput ← lift (get_prop params "rawInput");
  result ← safeParseAsync schema rawInput;
  success ← lift (get_prop result "success");
  if truthy success then
    next ← lift (get_prop params "next");
    call next
      (VObj (<["_input_out" := VNull]>
               (<["_input_in" := VNull]>
                  (<["input" := result]> (spread params)))))
  else
    cause ← lift (get_prop result "error");
    Ret (failure_with_cause "BAD_REQUEST" cause).

(** [contextSwapper<TInputContext>()(newContext)()], the
    [async (params) => ...]. *)
Definition contextSwapper (newContext : value → M value) (params : value)
  : M value :=
  result ← newContext params;
  is_ctx ← lift (has_prop "ctx" result);
  if (is_ctx : bool) then
    next ← lift (get_prop params "next");
    ctx ← lift (get_prop result "ctx");
    call next (VObj (<["ctx" := ctx]> (spread params)))
  else
    Ret result.

(** ** The application *)

(** [const swapContext = contextSwapper<TestContext>()]. *)
Definition swapContext : (value → M value) → value → M value := contextSwapper.

(** The function given to [swapContext] to make [isAuthed]. *)
Definition isAuthed_newContext (params : value) : M value :=
  ctx ← lift (get_prop params "ctx");
  user ← lift (get_prop ctx "user");
  if negb (truthy user) then
    Ret (failure "UNAUTHORIZED")
  else
    Ret (VObj {[ "ctx" := VObj (<["user" := user]> (spread ctx)) ]}).

(** [isAuthed()]. *)
Definition isAuthed : value → M value := swapContext isAuthed_newContext.

(** An external validator, known by the identity of its [safeParseAsync]. *)
Definition extern_schema (f : fid) : ZodTypeAny :=
  {| safeParseAsync := extern f |}.

(** The validator accepted: [result.success] is read and is truthy. *)
Definition accepted (result : value) : bool :=
  match get_prop result "success" with
  | Returned b => truthy b
  | Thrown _ => false
  end.

(** The validator rejected: [result.success] is read and is falsy. *)
Definition rejected (result : value) : bool :=
  match get_prop result "success" with
  | Returned b => negb (truthy b)
  | Thrown _ => false
  end.

(** ** A world to run the examples in *)

(** A stage or resolver written as a program, as the world sees it: its
    outcome and the state it leaves when its own calls go to [inner]. *)
Definition as_function {St : Type} (inner : @world St) (body : value → M value)
  : value → St → outcome value * St :=
  fun arg s => let '(r, s', _) := run inner (body arg) s in (r, s').

(** A validator for the schema [z.object({ hello: z.string() })]. *)
Definition hello_safeParse (raw : value) : value :=
  match get_prop raw "hello" with
  | Returned (VStr _) => VObj (<["data" := raw]> {[ "success" := VBool true ]})
  | _ =>
      VObj (<["error" := VError "ZodError" "Required"]>
              {[ "success" := VBool false ]})
  end.

(** The functions of the example world; the state counts the calls.
    0: the validator; 1: a resolver answering [{ data: 'ok' }]; 2: a
    derivation giving a new context; 3: a derivation refusing with
    [FORBIDDEN]; any other: a function that throws. *)
Definition base_world : @world nat :=
  fun f arg s =>
    match f with
    | 0 => (Returned (hello_safeParse arg), S s)
    | 1 => (Returned (VObj {[ "data" := VStr "ok" ]}), S s)
    | 2 =>
        (Returned (VObj {[ "ctx" := VObj {[ "tenant" := VStr "acme" ]} ]}), S s)
    | 3 => (Returned (failure "FORBIDDEN"), S s)
    | _ => (Thrown (VError "Error" "boom"), S s)
    end.

(** The example world with [isAuthed()] as function 5. *)
Definition demo_world : @world nat :=
  fun f arg s =>
    match f with
    | 5 => as_function base_world isAuthed arg s
    | _ => base_world f arg s
    end.

(** [{ hello: 'x' }] and [{}]. *)
Definition raw_hello : value := VObj {[ "hello" := VStr "x" ]}.
Definition raw_empty : value := VObj ∅.

(** [{ ctx: {}, rawInput, next }] with function 1 downstream. *)
Definition params_of (ctx rawInput : value) : gmap string value :=
  <["next" := VFun 1]> (<["rawInput" := rawInput]> {[ "ctx" := ctx ]}).

(** [{ user: { id: '42' } }]. *)
Definition ctx_user42 : value :=
  VObj {[ "user" := VObj {[ "id" := VStr "42" ]} ]}.

(** What the validation middleware hands to [next] for
    [{ ctx: {}, rawInput: { hello: 'x' }, next }], field by field. *)
Definition forwarded_hello : gmap string value :=
  list_to_map
    [ ("ctx", VObj ∅);
      ("rawInput", VObj {[ "hello" := VStr "x" ]});
      ("next", VFun 1);
      ("input",
        VObj (list_to_map
                [ ("success", VBool true);
                  ("data", VObj {[ "hello" := VStr "x" ]}) ]));
      ("_input_in", VNull);
      ("_input_out", VNull) ].

(** ** Kinds of values *)

(** [undefined] and [null], of which no property can be read. *)
Definition nullish (v : value) : bool :=
  match v with
  | VUndefined | VNull => true
  | _ => false
  end.

(** What can be called. *)
Definition callable (v : value) : bool :=
  match v with
  | VFun _ => true
  | _ => false
  end.

(** The values [in] refuses as its right operand. *)
Definition primitive (v : value) : bool :=
  match v with
  | VUndefined | VNull | VBool _ | VNum _ | VStr _ => true
  | VFun _ | VError _ _ | VObj _ => false
  end.

(** ** The layout of the error codes *)

(** The HTTP status each entry of the table is annotated with, as the
    comments at the end of its lines give them. *)
Definition http_status_comments : list (string * Z) :=
  [ ("BAD_REQUEST", 400%Z);
    ("UNAUTHORIZED", 401%Z);
    ("FORBIDDEN", 403%Z);
    ("NOT_FOUND", 404%Z);
    ("METHOD_NOT_SUPPORTED", 405%Z);
    ("TIMEOUT", 408%Z);
    ("PRECONDITION_FAILED", 412%Z);
    ("PAYLOAD_TOO_LARGE", 413%Z);
    ("CLIENT_CLOSED_REQUEST", 499%Z) ].

(** [-32000] to [-32099], the codes reserved for implementation-defined
    server errors. *)
Definition implementation_defined (code : Z) : bool :=
  ((-32099) <=? code)%Z && (code <=? (-32000))%Z.

(** ** A world for the edges *)

(** The example world with two more functions: 6 answers [undefined],
    7 answers the string ['ctx']. *)
Definition edge_world : @world nat :=
  fun f arg s =>
    match f with
    | 6 => (Returned VUndefined, S s)
    | 7 => (Returned (VStr "ctx"), S s)
    | _ => demo_world f arg s
    end.

(** [{ ctx: {}, rawInput: { hello: 'x' } }], params without a [next]. *)
Definition params_without_next : gmap string value :=
  <["rawInput" := raw_hello]> {[ "ctx" := VObj ∅ ]}.

(** A derivation function that asks function 1 and then answers with the
    context [{ tenant: 'acme' }]. *)
Definition derive_after_lookup (params : value) : M value :=
  _ ← extern 1 (VStr "lookup");
  Ret (VObj {[ "ctx" := VObj {[ "tenant" := VStr "acme" ]} ]}).

(** ** Thenables *)

(** What [await], and the return of an [async] function, call the [then]
    of: an object whose [then] is a function. *)
Definition thenable (v : value) : bool :=
  match v with
  | VObj o => callable (default VUndefined (o !! "then"))
  | _ => false
  end.

(** A world whose functions return no thenable, so that awaiting what a
    call returned calls nothing more. *)
Definition plain_world {St : Type} (w : @world St) : Prop :=
  ∀ (f : fid) (arg : value) (s s' : St) (v : value),
    w f arg s = (Returned v, s') → thenable v = false.

(** ** The composed procedure *)

(** Modelled from the spec: a middleware stage, [(params, next) -> ...]
    (data model, MiddlewareStage).  The module declares the type
    ([MiddlewareFunction]) but has no code that runs a stage in a chain:
    [middlewares] is left unimplemented.  The second argument is the
    capability [next], a function value the stage calls to forward. *)
Definition stage : Type := value → value → M value.

(** Modelled from the spec: what is seen of one invocation of a composed
    procedure (execution algorithm of the chain builder, 4.3, missing from
    the module): stage [cursor] is invoked on the current params; it calls
    [next]; it returns; the resolver is invoked and returns; and, beside
    these, a collaborator is called. *)
Inductive step : Type :=
| StageEntered (cursor : nat) (params : value)
| StageForwarded (cursor : nat) (arg : value)
| StageReturned (cursor : nat) (result : outcome value)
| ResolverRan (params : value) (result : outcome value)
| CollaboratorAsked (f : fid) (arg : value).

Definition asked (e : event) : step :=
  match e with
  | Called f arg => CollaboratorAsked f arg
  end.

(** Modelled from the spec: the optional replacement params of [next]
    (4.2, missing from the module): [next()] re-dispatches the params
    unmodified, [next(newParams)] substitutes [newParams]. *)
Definition replacement (arg current : value) : value :=
  match arg with
  | VUndefined => current
  | _ => arg
  end.

Section Chain.

Context {St : Type}.

(** The identity of the capability [next], which is no function of the
    world, and the world of the collaborators. *)
Variable NEXT : fid.
Variable w : @world St.

(** Modelled from the spec: the run of one stage (step 3 and 4 of the
    execution algorithm, 4.3, missing from the module).  A call of the
    capability [next] recurses into the rest of the chain and resolves to
    that sub-result; any other call is one of a collaborator; the value the
    stage returns is the result at this level. *)
Fixpoint exec_stage (cursor : nat)
    (next : value → St → outcome value * St * list step)
    (m : M value) (s : St) : outcome value * St * list step :=
  match m with
  | Ret v => (Returned v, s, [])
  | Throw e => (Thrown e, s, [])
  | Call f arg k =>
      let '(r, s', t) :=
        if Nat.eqb f NEXT then
          let '(r, s', t) := next arg s in
          (r, s', StageForwarded cursor arg :: t)
        else
          let '(r, s') := w f arg s in
          (r, s', [CollaboratorAsked f arg]) in
      match r with
      | Returned v =>
          let '(r', s'', t') := exec_stage cursor next (k v) s' in
          (r', s'', t ++ t')
      | Thrown e => (Thrown e, s', t)
      end
  end.

(** Modelled from the spec: the execution algorithm of the chain builder
    (4.3), missing from the module, from the cursor [cursor] on, [stages]
    being the stages not yet consumed and [current] the current params.
    When all stages are consumed the resolver is invoked on the current
    params and its result is the terminal value; otherwise the stage at
    the cursor is invoked with the current params and a [next] that
    increments the cursor, updates the current params and recurses. *)
Fixpoint exec_chain (cursor : nat) (stages : list stage)
    (resolver : value → M value) (current : value) (s : St)
  : outcome value * St * list step :=
  match stages with
  | [] =>
      let '(r, s', t) := run w (resolver current) s in
      (r, s', ResolverRan current r :: map asked t)
  | st :: rest =>
      let '(r, s', t) :=
        exec_stage cursor
          (fun arg s0 =>
             exec_chain (S cursor) rest resolver (replacement arg current) s0)
          (st current (VFun NEXT)) s in
      (r, s', StageEntered cursor current :: t ++ [StageReturned cursor r])
  end.

(** Modelled from the spec: [build(stage_1, ..., stage_n, resolver)] (4.3),
    missing from the module: the procedure, which starts with the cursor at
    0 and the initial params as the current ones. *)
Definition build (stages : list stage) (resolver : value → M value)
  : value → St → outcome value * St * list step :=
  fun initial s => exec_chain 0 stages resolver initial s.

(** Modelled from the spec: the middleware contract (4.2), which the module
    states in its types and comments only (the marker of a middleware
    result is there to have it checked): side effects come before the
    decision; then the stage either returns (a failure it made), or calls
    [next], once, and returns what that call resolved to, unaltered. *)
Inductive obeys_contract : M value → Prop :=
| obeys_return (v : value) : obeys_contract (Ret v)
| obeys_fault (e : value) : obeys_contract (Throw e)
| obeys_forward (arg : value) : obeys_contract (Call NEXT arg Ret)
| obeys_effect (f : fid) (arg : value) (k : value → M value) :
    f ≠ NEXT →
    (∀ v : value, obeys_contract (k v)) →
    obeys_contract (Call f arg k).

End Chain.

(** The parts of what an invocation gives. *)
Definition result_of {St : Type} (r : outcome value * St * list step)
  : outcome value := r.1.1.
Definition steps_of {St : Type} (r : outcome value * St * list step)
  : list step := r.2.

Definition final_of {St : Type} (r : outcome value * St * list step) : St :=
  r.1.2.

(** Counting the steps that satisfy [p]. *)
Definition count_steps (p : step → bool) (t : list step) : nat :=
  length (List.filter p t).
Arguments count_steps : simpl never.

Definition enters (i : nat) (e : step) : bool :=
  match e with
  | StageEntered j _ => Nat.eqb i j
  | _ => false
  end.

Definition enters_any (e : step) : bool :=
  match e with
  | StageEntered _ _ => true
  | _ => false
  end.

Definition resolves (e : step) : bool :=
  match e with
  | ResolverRan _ _ => true
  | _ => false
  end.

Definition is_asked (e : step) : bool :=
  match e with
  | CollaboratorAsked _ _ => true
  | _ => false
  end.

(** A stage beyond [i] is entered, or the resolver runs. *)
Definition beyond (i : nat) (e : step) : bool :=
  match e with
  | StageEntered j _ => Nat.ltb i j
  | ResolverRan _ _ => true
  | _ => false
  end.

(** Steps of collaborators only. *)
Definition quiet (t : list step) : Prop :=
  ∀ e : step, e ∈ t → is_asked e = true.

(** A middleware of the module as a stage: its [next] is a field of its
    params ([MiddlewareFunctionParams]). *)
Definition as_stage (middleware : value → M value) : stage :=
  fun params next => middleware (VObj (<["next" := next]> (spread params))).

(** The chain of the application, [pipe(zod(...), isAuthed(), resolver)],
    with function 0 of the example world as validator, function 1 as
    resolver and 9 as the identity of [next]. *)
Definition app_stages : list stage :=
  [as_stage (zod (extern_schema 0)); as_stage isAuthed].

Definition app_resolver : value → M value := extern 1.

(** [{ ctx, rawInput: { hello: 'x' } }]. *)
Definition initial_params (ctx : value) : value :=
  VObj (<["rawInput" := raw_hello]> {[ "ctx" := ctx ]}).

(** * Properties *)

Lemma lookup_entry (name : string) (code : Z) :
  TRPC_ERROR_CODES_BY_KEY !! name = Some code →
  (name, code) ∈ TRPC_ERROR_CODES_BY_KEY_entries.
Proof.
  unfold TRPC_ERROR_CODES_BY_KEY. apply elem_of_list_to_map_2.
Qed.

Lemma entry_cases (name : string) (code : Z) :
  (name, code) ∈ TRPC_ERROR_CODES_BY_KEY_entries →
  name ∈ spec_error_names ∧ (code < 0)%Z.
Proof.
  unfold TRPC_ERROR_CODES_BY_KEY_entries, spec_error_names.
  rewrite !elem_of_cons, elem_of_nil.
  intros H.
  repeat (destruct H as [H | H]; [injection H as -> ->; split; [set_solver | lia] | ]).
  destruct H.
Qed.

(** C1: every name of the table has the numeric code the specification
    fixes for it, the names of the table are exactly the eleven listed, and
    every code is a negative integer. *)
Theorem error_code_table :
  TRPC_ERROR_CODES_BY_KEY !! "PARSE_ERROR" = Some (-32700)%Z
  ∧ TRPC_ERROR_CODES_BY_KEY !! "BAD_REQUEST" = Some (-32600)%Z
  ∧ TRPC_ERROR_CODES_BY_KEY !! "INTERNAL_SERVER_ERROR" = Some (-32603)%Z
  ∧ TRPC_ERROR_CODES_BY_KEY !! "UNAUTHORIZED" = Some (-32001)%Z
  ∧ TRPC_ERROR_CODES_BY_KEY !! "FORBIDDEN" = Some (-32003)%Z
  ∧ TRPC_ERROR_CODES_BY_KEY !! "NOT_FOUND" = Some (-32004)%Z
  ∧ TRPC_ERROR_CODES_BY_KEY !! "METHOD_NOT_SUPPORTED" = Some (-32005)%Z
  ∧ TRPC_ERROR_CODES_BY_KEY !! "TIMEOUT" = Some (-32008)%Z
  ∧ TRPC_ERROR_CODES_BY_KEY !! "PRECONDITION_FAILED" = Some (-32012)%Z
  ∧ TRPC_ERROR_CODES_BY_KEY !! "PAYLOAD_TOO_LARGE" = Some (-32013)%Z
  ∧ TRPC_ERROR_CODES_BY_KEY !! "CLIENT_CLOSED_REQUEST" = Some (-32099)%Z
  ∧ (∀ name : string, ErrorCode name ↔ name ∈ spec_error_names)
  ∧ size TRPC_ERROR_CODES_BY_KEY = 11
  ∧ (∀ (name : string) (code : Z),
        TRPC_ERROR_CODES_BY_KEY !! name = Some code → (code < 0)%Z).
Proof.
  repeat (split; [vm_compute; reflexivity | ]).
  split; [ | split ].
  - intros name. split.
    + intros [code Hc]. apply lookup_entry, entry_cases in Hc. tauto.
    + unfold spec_error_names, ErrorCode.
      rewrite !elem_of_cons, elem_of_nil.
      intros H.
      repeat (destruct H as [-> | H]; [vm_compute; eauto | ]).
      destruct H.
  - vm_compute. reflexivity.
  - intros name code Hc. apply lookup_entry, entry_cases in Hc. tauto.
Qed.


(** ** Running programs *)

Section RunLemmas.

Context {St : Type}.
Implicit Types (w : @world St) (s : St).

Lemma run_call w s (n : fid) (arg : value) :
  run w (call (VFun n) arg) s =
    (let '(r, s') := w n arg s in (r, s', [Called n arg])).
Proof.
  simpl. destruct (w n arg s) as [[v | e] s']; reflexivity.
Qed.

Lemma run_bind {A B : Type} w (m : M A) (k : A → M B) s :
  run w (bind m k) s =
    match run w m s with
    | (Returned a, s', t) =>
        let '(r, s'', t') := run w (k a) s' in (r, s'', t ++ t')
    | (Thrown e, s', t) => (Thrown e, s', t)
    end.
Proof.
  revert s. induction m as [a | e | f arg k' IH]; intros s; simpl.
  - destruct (run w (k a) s) as [[r s''] t']. reflexivity.
  - reflexivity.
  - destruct (w f arg s) as [[v | e] s']; [ | reflexivity ].
    rewrite IH.
    destruct (run w (k' v) s') as [[[a | e] s1] t1]; [ | reflexivity ].
    destruct (run w (k a) s1) as [[r s2] t2]. reflexivity.
Qed.

(** An external call that returns, followed by the rest of the program. *)
Lemma run_extern_returned {A : Type} w s s' (f : fid) (arg v : value)
    (k : value → M A) :
  w f arg s = (Returned v, s') →
  run w (x ← extern f arg; k x) s =
    (let '(r, s'', t) := run w (k v) s' in (r, s'', Called f arg :: t)).
Proof.
  intros Hw. unfold mbind, M_bind, extern. simpl. rewrite Hw. reflexivity.
Qed.

(** An external call that throws ends the program. *)
Lemma run_extern_thrown {A : Type} w s s' (f : fid) (arg e : value)
    (k : value → M A) :
  w f arg s = (Thrown e, s') →
  run w (x ← extern f arg; k x) s = (Thrown e, s', [Called f arg]).
Proof.
  intros Hw. unfold mbind, M_bind, extern. simpl. rewrite Hw. reflexivity.
Qed.

Lemma run_lift_returned {A B : Type} w s (o : outcome A) (a : A)
    (k : A → M B) :
  o = Returned a → run w (x ← lift o; k x) s = run w (k a) s.
Proof. intros ->. reflexivity. Qed.

End RunLemmas.

(** ** The chain builder *)

(** C2: whatever the stages and the resolver given to it, the chain builder
    [middlewares] that [pipedResolver] returns throws [Error('Unimplemented')]
    without calling anything; it returns no procedure, so building and
    invoking one runs no stage and no resolver. *)
Theorem middlewares_unimplemented {St : Type} (w : @world St) (s : St)
    (args : list value) :
  run w (pipedResolver tt args) s = (Thrown (VError "Error" "Unimplemented"), s, [])
  ∧ (∀ procedure : value, pipedResolver tt args ≠ Ret procedure)
  ∧ (∀ params : value, trace_of (run w (invoke args params) s) = []).
Proof.
  split; [reflexivity | split].
  - intros procedure H. discriminate H.
  - intros params. reflexivity.
Qed.

(** ** The validation middleware *)

(** C4: when the validator rejects the raw input, the validation middleware
    makes one call, that of the validator, and none of [next], and returns
    the failure [{ error: { code: 'BAD_REQUEST', cause } }] whose cause is
    the validator's [error], as it is. *)
Theorem zod_rejected {St : Type} (w : @world St) (s s' : St) (f : fid)
    (params rawInput result : value) :
  get_prop params "rawInput" = Returned rawInput →
  w f rawInput s = (Returned result, s') →
  rejected result = true →
  ∃ cause : value,
    get_prop result "error" = Returned cause
    ∧ run w (zod (extern_schema f) params) s =
        (Returned (failure_with_cause "BAD_REQUEST" cause), s',
         [Called f rawInput])
    ∧ get_prop (failure_with_cause "BAD_REQUEST" cause) "error" =
        Returned (VObj (<["cause" := cause]> {[ "code" := VStr "BAD_REQUEST" ]}))
    ∧ ErrorCode "BAD_REQUEST".
Proof.
  intros Hraw Hw Hrej.
  unfold rejected in Hrej.
  destruct (get_prop result "success") as [b | e] eqn:Hsucc; [ | discriminate ].
  assert (∃ cause, get_prop result "error" = Returned cause) as [cause Hcause].
  { destruct result; simpl in Hsucc |- *; try discriminate; eauto. }
  exists cause. split; [exact Hcause | split; [ | split] ].
  - unfold zod.
    rewrite (run_lift_returned _ _ _ _ _ Hraw).
    cbn [safeParseAsync extern_schema].
    rewrite (run_extern_returned _ _ _ _ _ _ _ Hw).
    rewrite (run_lift_returned _ _ _ _ _ Hsucc).
    apply negb_true_iff in Hrej. rewrite Hrej.
    rewrite (run_lift_returned _ _ _ _ _ Hcause).
    reflexivity.
  - reflexivity.
  - vm_compute. eauto.
Qed.

(** The rejection of [{}] by the validator of the example world. *)
Lemma zod_rejected_witness :
  ∃ cause : value,
    get_prop (hello_safeParse raw_empty) "error" = Returned cause
    ∧ run demo_world (zod (extern_schema 0) (VObj (params_of (VObj ∅) raw_empty))) 0 =
        (Returned (failure_with_cause "BAD_REQUEST" cause), 1, [Called 0 raw_empty])
    ∧ get_prop (failure_with_cause "BAD_REQUEST" cause) "error" =
        Returned (VObj (<["cause" := cause]> {[ "code" := VStr "BAD_REQUEST" ]}))
    ∧ ErrorCode "BAD_REQUEST".
Proof.
  apply (zod_rejected demo_world 0 1 0 (VObj (params_of (VObj ∅) raw_empty))
           raw_empty (hello_safeParse raw_empty)).
  - vm_compute. reflexivity.
  - vm_compute. reflexivity.
  - vm_compute. reflexivity.
Defined.

(** The params the validation middleware forwards. *)
Lemma zod_forwarded_fields (p : gmap string value) (result : value) (k : string) :
  k ≠ "input" → k ≠ "_input_in" → k ≠ "_input_out" →
  (<["_input_out" := VNull]>
     (<["_input_in" := VNull]> (<["input" := result]> p))) !! k = p !! k.
Proof.
  intros H1 H2 H3. rewrite !lookup_insert_ne by congruence. reflexivity.
Qed.

(** C3, as the code has it: when the validator accepts the raw input of a
    params object with a [next], the validation middleware calls the
    validator and then [next], once each, and returns what [next] returns;
    the params it forwards have an [input], have [_input_in] and
    [_input_out] set to [null], and keep every other field of the incoming
    params, [rawInput] among them. *)
Theorem zod_accepted_forwards {St : Type} (w : @world St) (s s' : St)
    (f n : fid) (p : gmap string value) (result : value) :
  w f (default VUndefined (p !! "rawInput")) s = (Returned result, s') →
  accepted result = true →
  p !! "next" = Some (VFun n) →
  ∃ forwarded : gmap string value,
    run w (zod (extern_schema f) (VObj p)) s =
      (let '(r, s'') := w n (VObj forwarded) s' in
       (r, s'', [Called f (default VUndefined (p !! "rawInput"));
                 Called n (VObj forwarded)]))
    ∧ is_Some (forwarded !! "input")
    ∧ forwarded !! "_input_in" = Some VNull
    ∧ forwarded !! "_input_out" = Some VNull
    ∧ forwarded !! "rawInput" = p !! "rawInput"
    ∧ (∀ k : string, k ≠ "input" → k ≠ "_input_in" → k ≠ "_input_out" →
         forwarded !! k = p !! k).
Proof.
  intros Hw Hacc Hnext.
  unfold accepted in Hacc.
  destruct (get_prop result "success") as [b | e] eqn:Hsucc; [ | discriminate ].
  exists (<["_input_out" := VNull]>
            (<["_input_in" := VNull]> (<["input" := result]> p))).
  split; [ | repeat split ].
  - unfold zod.
    rewrite (run_lift_returned _ _ (get_prop (VObj p) "rawInput")
               (default VUndefined (p !! "rawInput")) _ eq_refl).
    cbn [safeParseAsync extern_schema].
    rewrite (run_extern_returned _ _ _ _ _ _ _ Hw).
    rewrite (run_lift_returned _ _ _ _ _ Hsucc).
    rewrite Hacc.
    rewrite (run_lift_returned _ _ (get_prop (VObj p) "next") (VFun n));
      [ | simpl; rewrite Hnext; reflexivity ].
    rewrite run_call. cbn [spread].
    destruct (w n _ s') as [r s'']. reflexivity.
  - rewrite !lookup_insert_ne by discriminate. rewrite lookup_insert_eq. eauto.
  - rewrite lookup_insert_ne by discriminate. apply lookup_insert_eq.
  - apply lookup_insert_eq.
  - apply zod_forwarded_fields; discriminate.
  - apply zod_forwarded_fields.
Qed.

(** The acceptance of [{ hello: 'x' }] by the validator of the example
    world. *)
Lemma zod_accepted_forwards_witness :
  ∃ forwarded : gmap string value,
    run demo_world (zod (extern_schema 0) (VObj (params_of (VObj ∅) raw_hello))) 0 =
      (let '(r, s'') := demo_world 1 (VObj forwarded) 1 in
       (r, s'', [Called 0 (default VUndefined
                             (params_of (VObj ∅) raw_hello !! "rawInput"));
                 Called 1 (VObj forwarded)]))
    ∧ is_Some (forwarded !! "input")
    ∧ forwarded !! "_input_in" = Some VNull
    ∧ forwarded !! "_input_out" = Some VNull
    ∧ forwarded !! "rawInput" = params_of (VObj ∅) raw_hello !! "rawInput"
    ∧ (∀ k : string, k ≠ "input" → k ≠ "_input_in" → k ≠ "_input_out" →
         forwarded !! k = params_of (VObj ∅) raw_hello !! k).
Proof.
  apply (zod_accepted_forwards demo_world 0 1 0 1
           (params_of (VObj ∅) raw_hello) (hello_safeParse raw_hello)).
  - vm_compute. reflexivity.
  - vm_compute. reflexivity.
  - vm_compute. reflexivity.
Defined.

(** C3 fails as stated: for [{ ctx: {}, rawInput: { hello: 'x' }, next }]
    the validator accepts, and the params handed to [next] still have
    [rawInput]; their [input] is the validator's whole answer
    [{ success, data }], so that [input.hello] is [undefined]. *)
Lemma zod_keeps_rawInput :
  accepted (hello_safeParse raw_hello) = true
  ∧ get_prop (hello_safeParse raw_hello) "data" = Returned raw_hello
  ∧ run demo_world (zod (extern_schema 0) (VObj (params_of (VObj ∅) raw_hello))) 0 =
      (Returned (VObj {[ "data" := VStr "ok" ]}), 2,
       [Called 0 raw_hello; Called 1 (VObj forwarded_hello)])
  ∧ forwarded_hello !! "rawInput" = Some raw_hello
  ∧ forwarded_hello !! "rawInput" ≠ None
  ∧ forwarded_hello !! "input" ≠ Some raw_hello
  ∧ (input ← forwarded_hello !! "input"; Some (get_prop input "hello")) =
      Some (Returned VUndefined).
Proof.
  repeat split; try (vm_compute; reflexivity).
  - vm_compute. discriminate.
  - intros H.
    apply (f_equal (fun o => input ← o; Some (get_prop input "hello"))) in H.
    vm_compute in H. discriminate H.
Qed.

(** ** The context-swap middleware *)

(** C5: when the derivation function answers with an object that has a
    [ctx], the context-swap middleware calls [next] once, with the incoming
    params in which [ctx] is the derived context and every other field is
    as it came, and returns what [next] returns; when the answer has no
    [ctx] (the [error] branch) the middleware returns that answer as it is
    and does not call [next]. *)
Theorem contextSwapper_branches {St : Type} (w : @world St) (s s' : St)
    (d : fid) (p result : gmap string value) :
  w d (VObj p) s = (Returned (VObj result), s') →
  (∀ (ctx : value) (n : fid),
      result !! "ctx" = Some ctx →
      p !! "next" = Some (VFun n) →
      run w (contextSwapper (extern d) (VObj p)) s =
        (let '(r, s'') := w n (VObj (<["ctx" := ctx]> p)) s' in
         (r, s'', [Called d (VObj p); Called n (VObj (<["ctx" := ctx]> p))]))
      ∧ (<["ctx" := ctx]> p) !! "ctx" = Some ctx
      ∧ (∀ k : string, k ≠ "ctx" → (<["ctx" := ctx]> p) !! k = p !! k))
  ∧ (result !! "ctx" = None →
      run w (contextSwapper (extern d) (VObj p)) s =
        (Returned (VObj result), s', [Called d (VObj p)])).
Proof.
  intros Hw. split.
  - intros ctx n Hctx Hnext. split; [ | split ].
    + unfold contextSwapper.
      rewrite (run_extern_returned _ _ _ _ _ _ _ Hw).
      rewrite (run_lift_returned _ _ (has_prop "ctx" (VObj result)) true);
        [ | simpl; rewrite Hctx; reflexivity ].
      rewrite (run_lift_returned _ _ (get_prop (VObj p) "next") (VFun n));
        [ | simpl; rewrite Hnext; reflexivity ].
      rewrite (run_lift_returned _ _ (get_prop (VObj result) "ctx") ctx);
        [ | simpl; rewrite Hctx; reflexivity ].
      rewrite run_call. cbn [spread].
      destruct (w n _ s') as [r s'']. reflexivity.
    + apply lookup_insert_eq.
    + intros k Hk. apply lookup_insert_ne. congruence.
  - intros Hnone. unfold contextSwapper.
    rewrite (run_extern_returned _ _ _ _ _ _ _ Hw).
    rewrite (run_lift_returned _ _ (has_prop "ctx" (VObj result)) false);
      [ | simpl; rewrite Hnone; reflexivity ].
    reflexivity.
Qed.

(** Both branches in the example world: derivation 2 gives a context,
    derivation 3 refuses. *)
Lemma contextSwapper_branches_witness :
  run demo_world (contextSwapper (extern 2) (VObj (params_of (VObj ∅) raw_hello))) 0 =
    (Returned (VObj {[ "data" := VStr "ok" ]}), 2,
     [Called 2 (VObj (params_of (VObj ∅) raw_hello));
      Called 1 (VObj (params_of (VObj {[ "tenant" := VStr "acme" ]}) raw_hello))])
  ∧ run demo_world (contextSwapper (extern 3) (VObj (params_of (VObj ∅) raw_hello))) 0 =
      (Returned (failure "FORBIDDEN"), 1,
       [Called 3 (VObj (params_of (VObj ∅) raw_hello))]).
Proof.
  split.
  - pose proof (contextSwapper_branches demo_world 0 1 2
                  (params_of (VObj ∅) raw_hello)
                  {[ "ctx" := VObj {[ "tenant" := VStr "acme" ]} ]}
                  eq_refl) as [Hctx _].
    destruct (Hctx (VObj {[ "tenant" := VStr "acme" ]}) 1%nat eq_refl eq_refl)
      as [Hrun _].
    rewrite Hrun. vm_compute. reflexivity.
  - pose proof (contextSwapper_branches demo_world 0 1 3
                  (params_of (VObj ∅) raw_hello)
                  {[ "error" := VObj {[ "code" := VStr "FORBIDDEN" ]} ]}
                  eq_refl) as [_ Herr].
    exact (Herr eq_refl).
Defined.

(** ** The auth middleware *)

Lemma has_prop_singleton (k : string) (v : value) :
  has_prop k (VObj {[ k := v ]}) = Returned true.
Proof.
  unfold has_prop. rewrite lookup_singleton_eq. reflexivity.
Qed.

(** C6: for params whose [ctx] is an object: if [ctx] has no [user], the
    auth middleware returns the failure [{ error: { code: 'UNAUTHORIZED' } }]
    and calls nothing; if [ctx.user] is [{ id }] (as for [id = '42']), it
    calls [next] once with params equal to the incoming ones, so that
    downstream [ctx.user.id] is that [id] and every other field of the
    context and of the params is as it came, and returns what [next]
    returns. *)
Theorem isAuthed_gate {St : Type} (w : @world St) (s : St)
    (p ctx : gmap string value) :
  p !! "ctx" = Some (VObj ctx) →
  (ctx !! "user" = None →
     run w (isAuthed (VObj p)) s = (Returned (failure "UNAUTHORIZED"), s, [])
     ∧ ErrorCode "UNAUTHORIZED")
  ∧ (∀ (uid : string) (n : fid),
       ctx !! "user" = Some (VObj {[ "id" := VStr uid ]}) →
       p !! "next" = Some (VFun n) →
       ∃ forwarded ctx' : gmap string value,
         run w (isAuthed (VObj p)) s =
           (let '(r, s') := w n (VObj forwarded) s in
            (r, s', [Called n (VObj forwarded)]))
         ∧ forwarded !! "ctx" = Some (VObj ctx')
         ∧ ctx' !! "user" = Some (VObj {[ "id" := VStr uid ]})
         ∧ (∀ k : string, ctx' !! k = ctx !! k)
         ∧ (∀ k : string, k ≠ "ctx" → forwarded !! k = p !! k)).
Proof.
  intros Hctx. split.
  - intros Huser. split; [ | vm_compute; eauto ].
    unfold isAuthed, swapContext, contextSwapper, isAuthed_newContext.
    unfold mbind, M_bind. simpl. rewrite Hctx. simpl. rewrite Huser. simpl.
    reflexivity.
  - intros uid n Huser Hnext.
    exists (<["ctx" := VObj (<["user" := VObj {[ "id" := VStr uid ]}]> ctx)]> p),
           (<["user" := VObj {[ "id" := VStr uid ]}]> ctx).
    split; [ | split; [ | split; [ | split ] ] ].
    + unfold isAuthed, swapContext, contextSwapper, isAuthed_newContext.
      unfold mbind, M_bind. simpl. rewrite Hctx. simpl. rewrite Huser.
      cbn [from_option id truthy negb bind lift spread].
      rewrite has_prop_singleton. cbn [bind lift get_prop].
      rewrite Hnext, lookup_singleton_eq.
      cbn [from_option id bind lift call run].
      destruct (w n _ s) as [[v | e] s']; reflexivity.
    + apply lookup_insert_eq.
    + apply lookup_insert_eq.
    + intros k. rewrite insert_id by exact Huser. reflexivity.
    + intros k Hk. apply lookup_insert_ne. congruence.
Qed.

(** The gate in the example world: [ctx = {}] and
    [ctx = { user: { id: '42' } }]. *)
Lemma isAuthed_gate_witness :
  (run demo_world (isAuthed (VObj (params_of (VObj ∅) raw_hello))) 0 =
     (Returned (failure "UNAUTHORIZED"), 0, [])
   ∧ ErrorCode "UNAUTHORIZED")
  ∧ ∃ forwarded ctx' : gmap string value,
      run demo_world (isAuthed (VObj (params_of ctx_user42 raw_hello))) 0 =
        (let '(r, s') := demo_world 1 (VObj forwarded) 0 in
         (r, s', [Called 1 (VObj forwarded)]))
      ∧ forwarded !! "ctx" = Some (VObj ctx')
      ∧ ctx' !! "user" = Some (VObj {[ "id" := VStr "42" ]})
      ∧ (∀ k : string, ctx' !! k = fields_of ctx_user42 !! k)
      ∧ (∀ k : string, k ≠ "ctx" →
           forwarded !! k = params_of ctx_user42 raw_hello !! k).
Proof.
  split.
  - pose proof (isAuthed_gate demo_world 0 (params_of (VObj ∅) raw_hello) ∅
                  eq_refl) as [Hnone _].
    exact (Hnone eq_refl).
  - pose proof (isAuthed_gate demo_world 0 (params_of ctx_user42 raw_hello)
                  (fields_of ctx_user42) eq_refl) as [_ Huser].
    exact (Huser "42" 1%nat eq_refl eq_refl).
Defined.

(** ** Faults of the collaborators *)

(** C7 fails as stated: in the example world function 4 throws; used as the
    derivation function or as the validator, its fault is the outcome of
    the middleware, which returns no result. *)
Lemma collaborator_fault_not_caught :
  demo_world 4 (VObj (params_of (VObj ∅) raw_hello)) 0 =
    (Thrown (VError "Error" "boom"), 1)
  ∧ run demo_world (contextSwapper (extern 4) (VObj (params_of (VObj ∅) raw_hello))) 0 =
      (Thrown (VError "Error" "boom"), 1,
       [Called 4 (VObj (params_of (VObj ∅) raw_hello))])
  ∧ run demo_world (zod (extern_schema 4) (VObj (params_of (VObj ∅) raw_hello))) 0 =
      (Thrown (VError "Error" "boom"), 1, [Called 4 raw_hello])
  ∧ (∀ result : value,
       outcome_of (run demo_world
                     (contextSwapper (extern 4)
                        (VObj (params_of (VObj ∅) raw_hello))) 0)
       ≠ Returned result).
Proof.
  repeat split; try (vm_compute; reflexivity).
  intros result. vm_compute. discriminate.
Qed.

(** C7, as the code has it: a fault thrown by the validator or by the
    derivation function is not caught; it is the outcome of the middleware,
    unchanged, after that one call and without a call of [next]; and
    building a procedure to invoke throws [Error('Unimplemented')]. *)
Theorem collaborator_fault_escapes {St : Type} (w : @world St) (s s' : St)
    (f : fid) (arg e : value) :
  w f arg s = (Thrown e, s') →
  (∀ params : value,
      get_prop params "rawInput" = Returned arg →
      run w (zod (extern_schema f) params) s = (Thrown e, s', [Called f arg]))
  ∧ run w (contextSwapper (extern f) arg) s = (Thrown e, s', [Called f arg])
  ∧ (∀ args : list value,
       run w (invoke args arg) s =
         (Thrown (VError "Error" "Unimplemented"), s, [])).
Proof.
  intros Hw. split; [ | split ].
  - intros params Hraw. unfold zod.
    rewrite (run_lift_returned _ _ _ _ _ Hraw).
    cbn [safeParseAsync extern_schema].
    apply (run_extern_thrown _ _ _ _ _ _ _ Hw).
  - unfold contextSwapper. apply (run_extern_thrown _ _ _ _ _ _ _ Hw).
  - intros args. reflexivity.
Qed.

(** The fault of function 4 of the example world. *)
Lemma collaborator_fault_escapes_witness :
  (∀ params : value,
      get_prop params "rawInput" = Returned raw_hello →
      run demo_world (zod (extern_schema 4) params) 0 =
        (Thrown (VError "Error" "boom"), 1, [Called 4 raw_hello]))
  ∧ run demo_world (contextSwapper (extern 4) raw_hello) 0 =
      (Thrown (VError "Error" "boom"), 1, [Called 4 raw_hello])
  ∧ (∀ args : list value,
       run demo_world (invoke args raw_hello) 0 =
         (Thrown (VError "Error" "Unimplemented"), 0, [])).
Proof.
  apply (collaborator_fault_escapes demo_world 0 1 4 raw_hello
           (VError "Error" "boom")).
  vm_compute. reflexivity.
Defined.

(** * Further properties of the module *)

(** ** The error code table *)

(** X1: no two names of the table share a code: a code names its error. *)
Theorem error_codes_injective (name1 name2 : string) (code : Z) :
  TRPC_ERROR_CODES_BY_KEY !! name1 = Some code →
  TRPC_ERROR_CODES_BY_KEY !! name2 = Some code →
  name1 = name2.
Proof.
  intros H1 H2. apply lookup_entry in H1. apply lookup_entry in H2.
  unfold TRPC_ERROR_CODES_BY_KEY_entries in H1, H2.
  rewrite !elem_of_cons, elem_of_nil in H1.
  rewrite !elem_of_cons, elem_of_nil in H2.
  destruct_or!; simplify_eq; reflexivity.
Qed.

Lemma error_codes_injective_witness :
  TRPC_ERROR_CODES_BY_KEY !! "TIMEOUT" = Some (-32008)%Z
  ∧ "TIMEOUT" = "TIMEOUT".
Proof.
  split; [vm_compute; reflexivity | ].
  apply (error_codes_injective "TIMEOUT" "TIMEOUT" (-32008)%Z);
    vm_compute; reflexivity.
Defined.

(** X2: the layout the comments of the table describe: an entry annotated with
    an HTTP status [4xx], but for [BAD_REQUEST], has the code [-32000 - xx]
    and lies in the range reserved for implementation-defined errors; the
    three other entries, the codes JSON-RPC itself defines, lie outside of
    it. *)
Theorem error_codes_layout (name : string) (code : Z) :
  TRPC_ERROR_CODES_BY_KEY !! name = Some code →
  (∀ status : Z,
      (name, status) ∈ http_status_comments → name ≠ "BAD_REQUEST" →
      code = (-32000 - (status - 400))%Z
      ∧ implementation_defined code = true)
  ∧ (name ∈ ["PARSE_ERROR"; "BAD_REQUEST"; "INTERNAL_SERVER_ERROR"] →
     implementation_defined code = false)
  ∧ (name ∈ ["PARSE_ERROR"; "BAD_REQUEST"; "INTERNAL_SERVER_ERROR"]
     ∨ ∃ status : Z, (name, status) ∈ http_status_comments
                     ∧ name ≠ "BAD_REQUEST").
Proof.
  intros H. apply lookup_entry in H.
  unfold TRPC_ERROR_CODES_BY_KEY_entries in H.
  rewrite !elem_of_cons, elem_of_nil in H.
  unfold http_status_comments.
  destruct_or!; simplify_eq; (split; [ | split ]).
  all: try (intros status Hs Hne; rewrite !elem_of_cons, elem_of_nil in Hs;
            destruct_or!; simplify_eq; split; reflexivity).
  all: try (intros Hin; rewrite !elem_of_cons, elem_of_nil in Hin;
            destruct_or!; simplify_eq; reflexivity).
  all: try (left; set_solver).
  all: right; eexists; split;
    [ repeat first [apply list_elem_of_here | apply list_elem_of_further]
    | discriminate ].
Qed.

Lemma error_codes_layout_witness :
  (-32099)%Z = (-32000 - (499 - 400))%Z
  ∧ implementation_defined (-32099)%Z = true.
Proof.
  apply (proj1 (error_codes_layout "CLIENT_CLOSED_REQUEST" (-32099)%Z eq_refl)
           499%Z).
  - unfold http_status_comments. set_solver.
  - discriminate.
Defined.

(** ** More on running programs *)

Lemma run_lift_thrown {St A B : Type} (w : @world St) (s : St)
    (o : outcome A) (e : value) (k : A → M B) :
  o = Thrown e → run w (x ← lift o; k x) s = (Thrown e, s, []).
Proof. intros ->. reflexivity. Qed.

Lemma get_prop_thrown (v : value) (k : string) (e : value) :
  get_prop v k = Thrown e → nullish v = true ∧ e = TypeError.
Proof. destruct v; simpl; intros H; inversion H; auto. Qed.

Lemma get_prop_nullish (v : value) (k : string) :
  nullish v = true → get_prop v k = Thrown TypeError.
Proof. destruct v; simpl; intros H; try discriminate H; reflexivity. Qed.

Lemma get_prop_returned (v : value) (k : string) :
  nullish v = false → ∃ x : value, get_prop v k = Returned x.
Proof. destruct v; simpl; intros H; try discriminate H; eauto. Qed.

Lemma run_call_not_callable {St : Type} (w : @world St) (s : St)
    (f arg : value) :
  callable f = false → run w (call f arg) s = (Thrown TypeError, s, []).
Proof. destruct f; simpl; intros H; try discriminate H; reflexivity. Qed.

(** The functions of the example world return no thenable. *)
Lemma base_world_plain : plain_world base_world.
Proof.
  intros f arg s s' v H. unfold base_world in H.
  destruct f as [ | [ | [ | [ | f]]]]; try discriminate H;
    injection H as <- _; try reflexivity.
  unfold hello_safeParse.
  destruct (get_prop arg "hello") as [[ | | | | | | | ] | ]; reflexivity.
Qed.

(** ** The validation middleware, at its edges *)

(** X3: params of which no property can be read ([undefined], [null]) make the
    validation middleware throw a [TypeError] before the validator is
    asked: nothing is called, whatever the schema. *)
Theorem zod_nullish_params {St : Type} (w : @world St) (s : St)
    (schema : ZodTypeAny) (params : value) :
  nullish params = true →
  run w (zod schema params) s = (Thrown TypeError, s, []).
Proof.
  intros Hn. unfold zod.
  apply run_lift_thrown, get_prop_nullish, Hn.
Qed.

Lemma zod_nullish_params_witness :
  run demo_world (zod (extern_schema 0) VUndefined) 0 =
    (Thrown TypeError, 0, []).
Proof.
  apply (zod_nullish_params demo_world 0 (extern_schema 0) VUndefined).
  reflexivity.
Defined.

(** X4: a validator that answers [undefined] or [null] makes the validation
    middleware throw a [TypeError] when it reads [success]: the validator
    was called once, [next] is not called and no failure is returned. *)
Theorem zod_nullish_result {St : Type} (w : @world St) (s s' : St) (f : fid)
    (params rawInput result : value) :
  get_prop params "rawInput" = Returned rawInput →
  w f rawInput s = (Returned result, s') →
  nullish result = true →
  run w (zod (extern_schema f) params) s =
    (Thrown TypeError, s', [Called f rawInput]).
Proof.
  intros Hraw Hw Hn. unfold zod.
  rewrite (run_lift_returned _ _ _ _ _ Hraw).
  cbn [safeParseAsync extern_schema].
  rewrite (run_extern_returned _ _ _ _ _ _ _ Hw).
  rewrite (run_lift_thrown _ _ _ _ _ (get_prop_nullish _ _ Hn)).
  reflexivity.
Qed.

Lemma zod_nullish_result_witness :
  run edge_world (zod (extern_schema 6) (VObj (params_of (VObj ∅) raw_hello))) 0 =
    (Thrown TypeError, 1, [Called 6 raw_hello]).
Proof.
  apply (zod_nullish_result edge_world 0 1 6
           (VObj (params_of (VObj ∅) raw_hello)) raw_hello VUndefined);
    vm_compute; reflexivity.
Defined.

(** X5: when the validator accepts but the [next] of the params is missing or
    is no function, the validation middleware throws a [TypeError] after
    the validator has run: its call and its effect on the state stay. *)
Theorem zod_next_not_callable {St : Type} (w : @world St) (s s' : St)
    (f : fid) (params rawInput result next : value) :
  get_prop params "rawInput" = Returned rawInput →
  w f rawInput s = (Returned result, s') →
  accepted result = true →
  get_prop params "next" = Returned next →
  callable next = false →
  run w (zod (extern_schema f) params) s =
    (Thrown TypeError, s', [Called f rawInput]).
Proof.
  intros Hraw Hw Hacc Hnext Hcall. unfold zod.
  unfold accepted in Hacc.
  destruct (get_prop result "success") as [b | e] eqn:Hsucc; [ | discriminate ].
  rewrite (run_lift_returned _ _ _ _ _ Hraw).
  cbn [safeParseAsync extern_schema].
  rewrite (run_extern_returned _ _ _ _ _ _ _ Hw).
  rewrite (run_lift_returned _ _ _ _ _ Hsucc).
  rewrite Hacc.
  rewrite (run_lift_returned _ _ _ _ _ Hnext).
  rewrite (run_call_not_callable _ _ _ _ Hcall).
  reflexivity.
Qed.

Lemma zod_next_not_callable_witness :
  run demo_world (zod (extern_schema 0) (VObj params_without_next)) 0 =
    (Thrown TypeError, 1, [Called 0 raw_hello]).
Proof.
  apply (zod_next_not_callable demo_world 0 1 0 (VObj params_without_next)
           raw_hello (hello_safeParse raw_hello) VUndefined);
    vm_compute; reflexivity.
Defined.

(** X6: the calls of the validation middleware, for any params and in any
    world whose functions return no thenable: at most two; the first, if
    any, is the validator on [params.rawInput]; the second, if any, is
    [params.next]. *)
Theorem zod_calls {St : Type} (w : @world St) (s : St) (f : fid)
    (params : value) :
  plain_world w →
  (length (trace_of (run w (zod (extern_schema f) params) s)) ≤ 2)%nat
  ∧ (trace_of (run w (zod (extern_schema f) params) s) = []
       ∧ nullish params = true
     ∨ ∃ rawInput : value,
         get_prop params "rawInput" = Returned rawInput
         ∧ (trace_of (run w (zod (extern_schema f) params) s) =
              [Called f rawInput]
            ∨ ∃ (n : fid) (forwarded : value),
                get_prop params "next" = Returned (VFun n)
                ∧ trace_of (run w (zod (extern_schema f) params) s) =
                    [Called f rawInput; Called n forwarded])).
Proof.
  intros _.
  destruct (get_prop params "rawInput") as [rawInput | e] eqn:Hraw.
  2: { apply get_prop_thrown in Hraw as [Hn ->].
       unfold zod.
       rewrite (run_lift_thrown _ _ _ _ _ (get_prop_nullish _ "rawInput" Hn)).
       cbn. split; [lia | auto]. }
  assert (∀ t, t = [Called f rawInput]
               ∨ (∃ (n : fid) (forwarded : value),
                    get_prop params "next" = Returned (VFun n)
                    ∧ t = [Called f rawInput; Called n forwarded]) →
               (length t ≤ 2)%nat) as Hlen.
  { intros t [-> | (n & fwd & _ & ->)]; simpl; lia. }
  assert (trace_of (run w (zod (extern_schema f) params) s) =
            [Called f rawInput]
          ∨ ∃ (n : fid) (forwarded : value),
              get_prop params "next" = Returned (VFun n)
              ∧ trace_of (run w (zod (extern_schema f) params) s) =
                  [Called f rawInput; Called n forwarded]) as Hshape.
  { unfold zod.
    rewrite (run_lift_returned _ _ _ _ _ Hraw).
    cbn [safeParseAsync extern_schema].
    destruct (w f rawInput s) as [[result | e] s'] eqn:Hw.
    2: { rewrite (run_extern_thrown _ _ _ _ _ _ _ Hw). left. reflexivity. }
    rewrite (run_extern_returned _ _ _ _ _ _ _ Hw).
    destruct (get_prop result "success") as [b | e] eqn:Hsucc.
    2: { rewrite (run_lift_thrown _ _ (Thrown e) e _ eq_refl).
         left. reflexivity. }
    rewrite (run_lift_returned _ _ (Returned b) b _ eq_refl).
    destruct (truthy b).
    - assert (nullish params = false) as Hnn.
      { destruct params; simpl in Hraw |- *; try discriminate; reflexivity. }
      destruct (get_prop_returned params "next" Hnn) as [next Hnext].
      rewrite (run_lift_returned _ _ _ _ _ Hnext).
      destruct (callable next) eqn:Hcall.
      + destruct next; try discriminate Hcall.
        rewrite run_call.
        destruct (w f0 _ s') as [r s'']. right. eauto.
      + rewrite (run_call_not_callable _ _ _ _ Hcall). left. reflexivity.
    - destruct (get_prop result "error") as [cause | e] eqn:Hcause.
      + rewrite (run_lift_returned _ _ (Returned cause) cause _ eq_refl).
        left. reflexivity.
      + rewrite (run_lift_thrown _ _ (Thrown e) e _ eq_refl).
        left. reflexivity. }
  split; [exact (Hlen _ Hshape) | right; eauto].
Qed.

Lemma zod_calls_witness :
  (length (trace_of (run base_world
                       (zod (extern_schema 0)
                          (VObj (params_of (VObj ∅) raw_hello))) 0)) ≤ 2)%nat
  ∧ trace_of (run base_world
                (zod (extern_schema 0) (VObj (params_of (VObj ∅) raw_hello)))
                0) =
      [Called 0 raw_hello; Called 1 (VObj forwarded_hello)].
Proof.
  split; [ | vm_compute; reflexivity ].
  apply (zod_calls base_world 0 0 (VObj (params_of (VObj ∅) raw_hello))
           base_world_plain).
Defined.


(** X7: what [input] is downstream: when the validator accepts, the forwarded
    params hold under [input] the validator's whole answer, whatever
    [input] the incoming params had. *)
Theorem zod_forwarded_input {St : Type} (w : @world St) (s s' : St)
    (f n : fid) (p : gmap string value) (result : value) :
  w f (default VUndefined (p !! "rawInput")) s = (Returned result, s') →
  accepted result = true →
  p !! "next" = Some (VFun n) →
  ∃ forwarded : gmap string value,
    trace_of (run w (zod (extern_schema f) (VObj p)) s) =
      [Called f (default VUndefined (p !! "rawInput"));
       Called n (VObj forwarded)]
    ∧ forwarded !! "input" = Some result
    ∧ get_prop (VObj forwarded) "input" = Returned result.
Proof.
  intros Hw Hacc Hnext.
  unfold accepted in Hacc.
  destruct (get_prop result "success") as [b | e] eqn:Hsucc; [ | discriminate ].
  exists (<["_input_out" := VNull]>
            (<["_input_in" := VNull]> (<["input" := result]> p))).
  assert ((<["_input_out" := VNull]>
             (<["_input_in" := VNull]> (<["input" := result]> p))) !! "input"
          = Some result) as Hin.
  { rewrite !lookup_insert_ne by discriminate. apply lookup_insert_eq. }
  split; [ | split; [exact Hin | simpl; rewrite Hin; reflexivity] ].
  unfold zod.
  rewrite (run_lift_returned _ _ (get_prop (VObj p) "rawInput")
             (default VUndefined (p !! "rawInput")) _ eq_refl).
  cbn [safeParseAsync extern_schema].
  rewrite (run_extern_returned _ _ _ _ _ _ _ Hw).
  rewrite (run_lift_returned _ _ _ _ _ Hsucc).
  rewrite Hacc.
  rewrite (run_lift_returned _ _ (get_prop (VObj p) "next") (VFun n));
    [ | simpl; rewrite Hnext; reflexivity ].
  rewrite run_call. cbn [spread].
  destruct (w n _ s') as [r s'']. reflexivity.
Qed.

Lemma zod_forwarded_input_witness :
  ∃ forwarded : gmap string value,
    trace_of (run demo_world
                (zod (extern_schema 0) (VObj (params_of (VObj ∅) raw_hello))) 0) =
      [Called 0 (default VUndefined
                   (params_of (VObj ∅) raw_hello !! "rawInput"));
       Called 1 (VObj forwarded)]
    ∧ forwarded !! "input" = Some (hello_safeParse raw_hello)
    ∧ get_prop (VObj forwarded) "input" = Returned (hello_safeParse raw_hello).
Proof.
  apply (zod_forwarded_input demo_world 0 1 0 1
           (params_of (VObj ∅) raw_hello) (hello_safeParse raw_hello));
    vm_compute; reflexivity.
Defined.

(** ** The context-swap middleware, at its edges *)

(** X8: a derivation function that answers with a primitive ([undefined], a
    string, ...) makes the context-swap middleware throw a [TypeError] at
    [in]: the derivation was called, [next] is not. *)
Theorem contextSwapper_primitive_result {St : Type} (w : @world St)
    (s s' : St) (d : fid) (params result : value) :
  w d params s = (Returned result, s') →
  primitive result = true →
  run w (contextSwapper (extern d) params) s =
    (Thrown TypeError, s', [Called d params]).
Proof.
  intros Hw Hprim. unfold contextSwapper.
  rewrite (run_extern_returned _ _ _ _ _ _ _ Hw).
  rewrite (run_lift_thrown _ _ (has_prop "ctx" result) TypeError);
    [reflexivity | ].
  destruct result; simpl in Hprim |- *; try discriminate Hprim; reflexivity.
Qed.

Lemma contextSwapper_primitive_result_witness :
  run edge_world (contextSwapper (extern 7) (VObj (params_of (VObj ∅) raw_hello))) 0 =
    (Thrown TypeError, 1, [Called 7 (VObj (params_of (VObj ∅) raw_hello))]).
Proof.
  apply (contextSwapper_primitive_result edge_world 0 1 7
           (VObj (params_of (VObj ∅) raw_hello)) (VStr "ctx"));
    vm_compute; reflexivity.
Defined.

(** X9: when the derivation gives a context but the [next] of the params is
    missing or is no function, the context-swap middleware throws a
    [TypeError] after the derivation has run. *)
Theorem contextSwapper_next_not_callable {St : Type} (w : @world St)
    (s s' : St) (d : fid) (params next ctx : value)
    (result : gmap string value) :
  w d params s = (Returned (VObj result), s') →
  result !! "ctx" = Some ctx →
  get_prop params "next" = Returned next →
  callable next = false →
  run w (contextSwapper (extern d) params) s =
    (Thrown TypeError, s', [Called d params]).
Proof.
  intros Hw Hctx Hnext Hcall. unfold contextSwapper.
  rewrite (run_extern_returned _ _ _ _ _ _ _ Hw).
  rewrite (run_lift_returned _ _ (has_prop "ctx" (VObj result)) true);
    [ | simpl; rewrite Hctx; reflexivity ].
  rewrite (run_lift_returned _ _ _ _ _ Hnext).
  rewrite (run_lift_returned _ _ (get_prop (VObj result) "ctx") ctx);
    [ | simpl; rewrite Hctx; reflexivity ].
  rewrite (run_call_not_callable _ _ _ _ Hcall). reflexivity.
Qed.

Lemma contextSwapper_next_not_callable_witness :
  run demo_world (contextSwapper (extern 2) (VObj params_without_next)) 0 =
    (Thrown TypeError, 1, [Called 2 (VObj params_without_next)]).
Proof.
  apply (contextSwapper_next_not_callable demo_world 0 1 2
           (VObj params_without_next) VUndefined
           (VObj {[ "tenant" := VStr "acme" ]})
           {[ "ctx" := VObj {[ "tenant" := VStr "acme" ]} ]});
    vm_compute; reflexivity.
Defined.

(** X10: the calls of the context-swap middleware, for any params and in
    any world whose functions return no thenable: the derivation function
    first, on the params as they came ([next] included), then at most one
    more, which is [params.next]. *)
Theorem contextSwapper_calls {St : Type} (w : @world St) (s : St) (d : fid)
    (params : value) :
  plain_world w →
  trace_of (run w (contextSwapper (extern d) params) s) = [Called d params]
  ∨ ∃ (n : fid) (forwarded : value),
      get_prop params "next" = Returned (VFun n)
      ∧ trace_of (run w (contextSwapper (extern d) params) s) =
          [Called d params; Called n forwarded].
Proof.
  intros _. unfold contextSwapper.
  destruct (w d params s) as [[result | e] s'] eqn:Hw.
  2: { rewrite (run_extern_thrown _ _ _ _ _ _ _ Hw). left. reflexivity. }
  rewrite (run_extern_returned _ _ _ _ _ _ _ Hw).
  destruct (has_prop "ctx" result) as [[ | ] | e] eqn:Hhas.
  - rewrite (run_lift_returned _ _ (Returned true) true _ eq_refl).
    destruct (get_prop params "next") as [next | e] eqn:Hnext.
    2: { rewrite (run_lift_thrown _ _ (Thrown e) e _ eq_refl).
         left. reflexivity. }
    rewrite (run_lift_returned _ _ (Returned next) next _ eq_refl).
    destruct (get_prop result "ctx") as [ctx | e] eqn:Hctx.
    2: { rewrite (run_lift_thrown _ _ (Thrown e) e _ eq_refl).
         left. reflexivity. }
    rewrite (run_lift_returned _ _ (Returned ctx) ctx _ eq_refl).
    destruct (callable next) eqn:Hcall.
    + destruct next; try discriminate Hcall.
      rewrite run_call. destruct (w f _ s') as [r s'']. right. eauto.
    + rewrite (run_call_not_callable _ _ _ _ Hcall). left. reflexivity.
  - rewrite (run_lift_returned _ _ (Returned false) false _ eq_refl).
    left. reflexivity.
  - rewrite (run_lift_thrown _ _ (Thrown e) e _ eq_refl). left. reflexivity.
Qed.

Lemma contextSwapper_calls_witness :
  trace_of (run base_world
              (contextSwapper (extern 3) (VObj (params_of (VObj ∅) raw_hello)))
              0) =
    [Called 3 (VObj (params_of (VObj ∅) raw_hello))]
  ∨ ∃ (n : fid) (forwarded : value),
      get_prop (VObj (params_of (VObj ∅) raw_hello)) "next" = Returned (VFun n)
      ∧ trace_of (run base_world
                    (contextSwapper (extern 3)
                       (VObj (params_of (VObj ∅) raw_hello))) 0) =
          [Called 3 (VObj (params_of (VObj ∅) raw_hello));
           Called n forwarded].
Proof.
  apply (contextSwapper_calls base_world 0 3
           (VObj (params_of (VObj ∅) raw_hello)) base_world_plain).
Defined.


(** X11: the context-swap middleware around a derivation function that is itself
    a program making calls: its calls are those of the derivation, followed
    by the one of [next] when the derivation gave a context; a failure or a
    fault of the derivation is the outcome, with the derivation's calls
    alone. *)
Theorem contextSwapper_after_derivation {St : Type} (w : @world St)
    (s s' : St) (newContext : value → M value) (p : gmap string value)
    (t : list event) :
  (∀ e : value,
      run w (newContext (VObj p)) s = (Thrown e, s', t) →
      run w (contextSwapper newContext (VObj p)) s = (Thrown e, s', t))
  ∧ (∀ result : gmap string value,
       run w (newContext (VObj p)) s = (Returned (VObj result), s', t) →
       result !! "ctx" = None →
       run w (contextSwapper newContext (VObj p)) s =
         (Returned (VObj result), s', t))
  ∧ (∀ (result : gmap string value) (ctx : value) (n : fid),
       run w (newContext (VObj p)) s = (Returned (VObj result), s', t) →
       result !! "ctx" = Some ctx →
       p !! "next" = Some (VFun n) →
       run w (contextSwapper newContext (VObj p)) s =
         (let '(r, s'') := w n (VObj (<["ctx" := ctx]> p)) s' in
          (r, s'', t ++ [Called n (VObj (<["ctx" := ctx]> p))]))).
Proof.
  split; [ | split ].
  - intros e Hrun. unfold contextSwapper, mbind, M_bind.
    rewrite run_bind, Hrun. reflexivity.
  - intros result Hrun Hnone. unfold contextSwapper, mbind, M_bind.
    rewrite run_bind, Hrun. simpl. rewrite Hnone. simpl.
    rewrite app_nil_r. reflexivity.
  - intros result ctx n Hrun Hctx Hnext. unfold contextSwapper, mbind, M_bind.
    rewrite run_bind, Hrun. simpl. rewrite Hctx, Hnext. simpl.
    destruct (w n _ s') as [[v | e] s'']; reflexivity.
Qed.

Lemma contextSwapper_after_derivation_witness :
  run demo_world (contextSwapper derive_after_lookup
                    (VObj (params_of (VObj ∅) raw_hello))) 0 =
    (Returned (VObj {[ "data" := VStr "ok" ]}), 2,
     [Called 1 (VStr "lookup");
      Called 1 (VObj (params_of (VObj {[ "tenant" := VStr "acme" ]}) raw_hello))])
  ∧ run demo_world (contextSwapper isAuthed_newContext
                      (VObj (params_of (VObj ∅) raw_hello))) 0 =
      (Returned (failure "UNAUTHORIZED"), 0, [])
  ∧ run demo_world (contextSwapper (extern 4)
                      (VObj (params_of (VObj ∅) raw_hello))) 0 =
      (Thrown (VError "Error" "boom"), 1,
       [Called 4 (VObj (params_of (VObj ∅) raw_hello))]).
Proof.
  split; [ | split ].
  - pose proof (proj2 (proj2 (contextSwapper_after_derivation demo_world 0 1
                  derive_after_lookup (params_of (VObj ∅) raw_hello)
                  [Called 1 (VStr "lookup")]))
                  {[ "ctx" := VObj {[ "tenant" := VStr "acme" ]} ]}
                  (VObj {[ "tenant" := VStr "acme" ]}) 1%nat
                  eq_refl eq_refl eq_refl) as Hrun.
    rewrite Hrun. vm_compute. reflexivity.
  - exact (proj1 (proj2 (contextSwapper_after_derivation demo_world 0 0
                  isAuthed_newContext (params_of (VObj ∅) raw_hello) []))
                  {[ "error" := VObj {[ "code" := VStr "UNAUTHORIZED" ]} ]}
                  eq_refl eq_refl).
  - exact (proj1 (contextSwapper_after_derivation demo_world 0 1
                  (extern 4) (params_of (VObj ∅) raw_hello)
                  [Called 4 (VObj (params_of (VObj ∅) raw_hello))])
                  (VError "Error" "boom") eq_refl).
Defined.

(** ** The auth middleware, at its edges *)

(** The auth middleware, step by step. *)
Lemma isAuthed_run {St : Type} (w : @world St) (s : St) (params : value) :
  run w (isAuthed params) s =
    match get_prop params "ctx" with
    | Thrown e => (Thrown e, s, [])
    | Returned ctx =>
        match get_prop ctx "user" with
        | Thrown e => (Thrown e, s, [])
        | Returned user =>
            if truthy user then
              run w (next ← lift (get_prop params "next");
                     call next
                       (VObj (<["ctx" := VObj (<["user" := user]> (spread ctx))]>
                                (spread params)))) s
            else (Returned (failure "UNAUTHORIZED"), s, [])
        end
    end.
Proof.
  unfold isAuthed, swapContext, contextSwapper, isAuthed_newContext.
  unfold mbind, M_bind.
  destruct (get_prop params "ctx") as [ctx | e]; [ | reflexivity ].
  cbn [lift bind].
  destruct (get_prop ctx "user") as [user | e]; [ | reflexivity ].
  cbn [lift bind].
  destruct (truthy user); cbn [negb bind]; [ | reflexivity ].
  rewrite has_prop_singleton. cbn [lift bind get_prop].
  rewrite lookup_singleton_eq. reflexivity.
Qed.

(** Only an object context can hold a truthy [user]; writing that [user]
    back into a copy of the context, and that context back into a copy of
    the params, changes nothing. *)
Lemma isAuthed_forwarded_same (params ctx user : value) :
  get_prop params "ctx" = Returned ctx →
  get_prop ctx "user" = Returned user →
  truthy user = true →
  VObj (<["ctx" := VObj (<["user" := user]> (spread ctx))]> (spread params))
  = params.
Proof.
  intros Hctx Huser Htrue.
  destruct ctx as [ | | | | | | | c]; simpl in Huser;
    try (injection Huser as <-; simpl in Htrue; discriminate Htrue);
    try discriminate Huser.
  destruct (c !! "user") as [u | ] eqn:Hu; simpl in Huser;
    injection Huser as <-; [ | simpl in Htrue; discriminate Htrue ].
  cbn [spread]. rewrite (insert_id c "user" u Hu).
  destruct params as [ | | | | | | | p]; simpl in Hctx;
    try discriminate Hctx.
  destruct (p !! "ctx") as [c' | ] eqn:Hc; simpl in Hctx;
    injection Hctx as Hc'; [ | discriminate Hc' ].
  subst c'. cbn [spread]. rewrite (insert_id p "ctx" _ Hc). reflexivity.
Qed.

(** X12: a [user] that is there but falsy ([null], [''], [0], [false]) is no
    user: whenever [params.ctx.user] can be read and is falsy, the auth
    middleware returns the failure [UNAUTHORIZED], calls nothing and leaves
    the state as it is. *)
Theorem isAuthed_falsy_user {St : Type} (w : @world St) (s : St)
    (params ctx user : value) :
  get_prop params "ctx" = Returned ctx →
  get_prop ctx "user" = Returned user →
  truthy user = false →
  run w (isAuthed params) s = (Returned (failure "UNAUTHORIZED"), s, []).
Proof.
  intros Hctx Huser Hfalse.
  rewrite isAuthed_run, Hctx, Huser, Hfalse. reflexivity.
Qed.

Lemma isAuthed_falsy_user_witness :
  run demo_world (isAuthed (VObj (params_of (VObj {[ "user" := VNull ]}) raw_hello))) 0 =
    (Returned (failure "UNAUTHORIZED"), 0, []).
Proof.
  apply (isAuthed_falsy_user demo_world 0
           (VObj (params_of (VObj {[ "user" := VNull ]}) raw_hello))
           (VObj {[ "user" := VNull ]}) VNull);
    vm_compute; reflexivity.
Defined.

(** X13: whatever the truthy [user] of the context, the auth middleware hands to
    [next] params equal to the ones it received, once, and returns what
    [next] returns: at run time it changes nothing in them. *)
Theorem isAuthed_forwards_unchanged {St : Type} (w : @world St) (s : St)
    (params ctx user : value) (n : fid) :
  get_prop params "ctx" = Returned ctx →
  get_prop ctx "user" = Returned user →
  truthy user = true →
  get_prop params "next" = Returned (VFun n) →
  run w (isAuthed params) s =
    (let '(r, s') := w n params s in (r, s', [Called n params])).
Proof.
  intros Hctx Huser Htrue Hnext.
  rewrite isAuthed_run, Hctx, Huser, Htrue.
  rewrite (run_lift_returned _ _ _ _ _ Hnext).
  rewrite (isAuthed_forwarded_same _ _ _ Hctx Huser Htrue).
  apply run_call.
Qed.

Lemma isAuthed_forwards_unchanged_witness :
  run demo_world (isAuthed (VObj (params_of (VObj {[ "user" := VStr "root" ]}) raw_hello))) 0 =
    (Returned (VObj {[ "data" := VStr "ok" ]}), 1,
     [Called 1 (VObj (params_of (VObj {[ "user" := VStr "root" ]}) raw_hello))]).
Proof.
  rewrite (isAuthed_forwards_unchanged demo_world 0
             (VObj (params_of (VObj {[ "user" := VStr "root" ]}) raw_hello))
             (VObj {[ "user" := VStr "root" ]}) (VStr "root") 1%nat);
    vm_compute; reflexivity.
Defined.

(** X14: params without a [ctx], or with a [null] one, make the auth middleware
    throw a [TypeError] when it reads [ctx.user]; nothing is called. *)
Theorem isAuthed_nullish_ctx {St : Type} (w : @world St) (s : St)
    (params ctx : value) :
  get_prop params "ctx" = Returned ctx →
  nullish ctx = true →
  run w (isAuthed params) s = (Thrown TypeError, s, []).
Proof.
  intros Hctx Hn.
  rewrite isAuthed_run, Hctx, (get_prop_nullish _ _ Hn). reflexivity.
Qed.

Lemma isAuthed_nullish_ctx_witness :
  run demo_world (isAuthed (VObj {[ "rawInput" := raw_hello ]})) 0 =
    (Thrown TypeError, 0, []).
Proof.
  apply (isAuthed_nullish_ctx demo_world 0
           (VObj {[ "rawInput" := raw_hello ]}) VUndefined);
    vm_compute; reflexivity.
Defined.

(** X15: the calls of the auth middleware, for any params and in any world
    whose functions return no thenable: either none, and then the state is
    as it was, or exactly one, of [params.next] on the params as they
    came. *)
Theorem isAuthed_calls {St : Type} (w : @world St) (s : St) (params : value) :
  plain_world w →
  trace_of (run w (isAuthed params) s) = []
    ∧ state_of (run w (isAuthed params) s) = s
  ∨ ∃ n : fid,
      get_prop params "next" = Returned (VFun n)
      ∧ trace_of (run w (isAuthed params) s) = [Called n params].
Proof.
  intros _. rewrite isAuthed_run.
  destruct (get_prop params "ctx") as [ctx | e] eqn:Hctx; [ | left; auto ].
  destruct (get_prop ctx "user") as [user | e] eqn:Huser; [ | left; auto ].
  destruct (truthy user) eqn:Htrue; [ | left; auto ].
  rewrite (isAuthed_forwarded_same _ _ _ Hctx Huser Htrue).
  destruct (get_prop params "next") as [next | e] eqn:Hnext.
  2: { rewrite (run_lift_thrown _ _ (Thrown e) e _ eq_refl). left. auto. }
  rewrite (run_lift_returned _ _ (Returned next) next _ eq_refl).
  destruct (callable next) eqn:Hcall.
  - destruct next; try discriminate Hcall.
    rewrite run_call. destruct (w f params s) as [r s']. right. eauto.
  - rewrite (run_call_not_callable _ _ _ _ Hcall). left. auto.
Qed.

Lemma isAuthed_calls_witness :
  trace_of (run base_world
              (isAuthed (VObj (params_of ctx_user42 raw_hello))) 0) = []
    ∧ state_of (run base_world
                  (isAuthed (VObj (params_of ctx_user42 raw_hello))) 0) = 0
  ∨ ∃ n : fid,
      get_prop (VObj (params_of ctx_user42 raw_hello)) "next" =
        Returned (VFun n)
      ∧ trace_of (run base_world
                    (isAuthed (VObj (params_of ctx_user42 raw_hello))) 0) =
          [Called n (VObj (params_of ctx_user42 raw_hello))].
Proof.
  apply (isAuthed_calls base_world 0 (VObj (params_of ctx_user42 raw_hello))
           base_world_plain).
Defined.


(** * The composed procedure *)

(** ** Counting steps *)

Lemma count_steps_cons (p : step → bool) (e : step) (t : list step) :
  count_steps p (e :: t) = ((if p e then 1 else 0) + count_steps p t)%nat.
Proof. unfold count_steps. simpl. destruct (p e); reflexivity. Qed.

Lemma count_steps_app (p : step → bool) (t1 t2 : list step) :
  count_steps p (t1 ++ t2) = (count_steps p t1 + count_steps p t2)%nat.
Proof.
  induction t1 as [ | e t1 IH]; [reflexivity | ].
  simpl. rewrite !count_steps_cons, IH. lia.
Qed.

Lemma count_steps_none (p : step → bool) (t : list step) :
  (∀ e : step, e ∈ t → p e = false) → count_steps p t = 0%nat.
Proof.
  induction t as [ | e t IH]; intros H; [reflexivity | ].
  rewrite count_steps_cons, (H e), IH; [reflexivity | | ].
  - intros e' He'. apply H. apply list_elem_of_further, He'.
  - apply list_elem_of_here.
Qed.

Lemma count_steps_frame (p : step → bool) (e1 e2 : step) (t : list step) :
  count_steps p (e1 :: t ++ [e2]) =
    ((if p e1 then 1 else 0) + count_steps p t + (if p e2 then 1 else 0))%nat.
Proof.
  rewrite count_steps_cons, count_steps_app, count_steps_cons.
  unfold count_steps at 2. simpl. lia.
Qed.

Lemma count_steps_middle (p : step → bool) (e : step) (t1 t2 : list step) :
  count_steps p (t1 ++ e :: t2) =
    (count_steps p t1 + (if p e then 1 else 0) + count_steps p t2)%nat.
Proof. rewrite count_steps_app, count_steps_cons. lia. Qed.

Lemma quiet_count (p : step → bool) (t : list step) :
  (∀ e : step, is_asked e = true → p e = false) →
  quiet t → count_steps p t = 0%nat.
Proof. intros Hp Hq. apply count_steps_none. intros e He. auto. Qed.

Lemma quiet_map_asked (t : list event) : quiet (map asked t).
Proof.
  intros e He. apply list_elem_of_fmap in He as ([f arg] & -> & _).
  reflexivity.
Qed.

Lemma quiet_nil : quiet [].
Proof. intros e He. apply elem_of_nil in He. destruct He. Qed.

Lemma quiet_cons (f : fid) (arg : value) (t : list step) :
  quiet t → quiet (CollaboratorAsked f arg :: t).
Proof.
  intros Hq e He. apply elem_of_cons in He as [-> | He]; [reflexivity | auto].
Qed.

(** ** One stage *)

Section StageLemmas.

Context {St : Type} (NEXT : fid) (w : @world St).

(** Whatever a stage does: a step of its run is one of a collaborator, or
    its call of [next], or a step of the rest of the chain under such a
    call. *)
Lemma exec_stage_events (cursor : nat)
    (next : value → St → outcome value * St * list step) (m : M value) :
  ∀ (s : St) (e : step),
    e ∈ steps_of (exec_stage NEXT w cursor next m s) →
    is_asked e = true
    ∨ ∃ arg : value,
        StageForwarded cursor arg ∈ steps_of (exec_stage NEXT w cursor next m s)
        ∧ (e = StageForwarded cursor arg
           ∨ ∃ s0 : St,
               e ∈ steps_of (next arg s0)
               ∧ ∀ e' : step,
                   e' ∈ steps_of (next arg s0) →
                   e' ∈ steps_of (exec_stage NEXT w cursor next m s)).
Proof.
  induction m as [v | e0 | f arg k IH]; intros s e He.
  - apply elem_of_nil in He. destruct He.
  - apply elem_of_nil in He. destruct He.
  - unfold steps_of in *. simpl in *.
    destruct (Nat.eqb f NEXT).
    + destruct (next arg s) as [[r s1] tn] eqn:Hnext.
      destruct r as [v | e1].
      * specialize (IH v s1 e).
        destruct (exec_stage NEXT w cursor next (k v) s1) as [[r' s2] t'].
        simpl in *. apply elem_of_cons in He as [-> | He].
        { right. exists arg. split; [apply list_elem_of_here | left; reflexivity]. }
        apply elem_of_app in He as [He | He].
        { right. exists arg. split; [apply list_elem_of_here | ].
          right. exists s. rewrite Hnext. simpl. split; [exact He | ].
          intros e' He'. apply list_elem_of_further, elem_of_app. left. exact He'. }
        destruct (IH He) as [Ha | (arg' & Hf & Hcase)]; [left; exact Ha | ].
        right. exists arg'. split.
        { apply list_elem_of_further, elem_of_app. right. exact Hf. }
        destruct Hcase as [-> | (s0 & He0 & Hsub)]; [left; reflexivity | ].
        right. exists s0. split; [exact He0 | ].
        intros e' He'. apply list_elem_of_further, elem_of_app. right. auto.
      * simpl in *. apply elem_of_cons in He as [-> | He].
        { right. exists arg. split; [apply list_elem_of_here | left; reflexivity]. }
        right. exists arg. split; [apply list_elem_of_here | ].
        right. exists s. rewrite Hnext. simpl. split; [exact He | ].
        intros e' He'. apply list_elem_of_further. exact He'.
    + destruct (w f arg s) as [[v | e1] s1].
      * specialize (IH v s1 e).
        destruct (exec_stage NEXT w cursor next (k v) s1) as [[r' s2] t'].
        simpl in *. apply elem_of_cons in He as [-> | He]; [left; reflexivity | ].
        destruct (IH He) as [Ha | (arg' & Hf & Hcase)]; [left; exact Ha | ].
        right. exists arg'. split; [apply list_elem_of_further; exact Hf | ].
        destruct Hcase as [-> | (s0 & He0 & Hsub)]; [left; reflexivity | ].
        right. exists s0. split; [exact He0 | ].
        intros e' He'. apply list_elem_of_further. auto.
      * simpl in *. apply elem_of_cons in He as [-> | He]; [left; reflexivity | ].
        apply elem_of_nil in He. destruct He.
Qed.

(** A stage that obeys the contract: collaborators only, or collaborators
    and then the one call of [next], whose result is the stage's. *)
Lemma exec_stage_shape (cursor : nat)
    (next : value → St → outcome value * St * list step) (m : M value) :
  obeys_contract NEXT m →
  ∀ s : St,
    quiet (steps_of (exec_stage NEXT w cursor next m s))
    ∨ ∃ (asks : list step) (arg : value) (s0 : St),
        quiet asks
        ∧ steps_of (exec_stage NEXT w cursor next m s) =
            asks ++ StageForwarded cursor arg :: steps_of (next arg s0)
        ∧ result_of (exec_stage NEXT w cursor next m s) =
            result_of (next arg s0).
Proof.
  induction 1 as [v | e | arg | f arg k Hf Hk IH]; intros s.
  - left. apply quiet_nil.
  - left. apply quiet_nil.
  - right. exists [], arg, s. split; [apply quiet_nil | ].
    unfold steps_of, result_of. simpl. rewrite Nat.eqb_refl.
    destruct (next arg s) as [[[v | e] s1] tn]; simpl.
    + rewrite app_nil_r. auto.
    + auto.
  - unfold steps_of, result_of in *. simpl.
    destruct (Nat.eqb f NEXT) eqn:Hfn;
      [apply Nat.eqb_eq in Hfn; contradiction | ].
    destruct (w f arg s) as [[v | e] s1].
    + specialize (IH v s1).
      destruct (exec_stage NEXT w cursor next (k v) s1) as [[r' s2] t'].
      simpl in *. destruct IH as [Hq | (asks & arg' & s0 & Hq & Ht & Hr)].
      * left. apply quiet_cons, Hq.
      * right. exists (CollaboratorAsked f arg :: asks), arg', s0.
        split; [apply quiet_cons, Hq | ]. rewrite Ht. auto.
    + left. simpl. apply quiet_cons, quiet_nil.
Qed.

End StageLemmas.

(** ** The chain *)

Section ChainLemmas.

Context {St : Type} (NEXT : fid) (w : @world St) (resolver : value → M value).

(** Without a call of [next] by stage [i], nothing beyond it happens. *)
Lemma chain_stops (stages : list stage) :
  ∀ (cursor : nat) (current : value) (s : St) (i : nat),
    (cursor ≤ i < cursor + length stages)%nat →
    (∀ arg : value,
        StageForwarded i arg
        ∉ steps_of (exec_chain NEXT w cursor stages resolver current s)) →
    ∀ e : step,
      e ∈ steps_of (exec_chain NEXT w cursor stages resolver current s) →
      beyond i e = false.
Proof.
  induction stages as [ | st rest IH]; intros cursor current s i Hi Hno e He.
  - simpl in Hi. lia.
  - unfold steps_of in *. simpl in *.
    pose proof (exec_stage_events NEXT w cursor
                  (fun arg s0 =>
                     exec_chain NEXT w (S cursor) rest resolver
                       (replacement arg current) s0)
                  (st current (VFun NEXT)) s) as Hev.
    unfold steps_of in Hev.
    destruct (exec_stage NEXT w cursor _ (st current (VFun NEXT)) s)
      as [[r s1] tb].
    simpl in *.
    apply elem_of_cons in He as [-> | He].
    { simpl. apply Nat.ltb_ge. lia. }
    apply elem_of_app in He as [He | He].
    2: { apply elem_of_cons in He as [-> | He]; [reflexivity | ].
         apply elem_of_nil in He. destruct He. }
    destruct (Hev e He) as [Ha | (arg & Hf & Hcase)].
    { destruct e; simpl in Ha; try discriminate Ha; reflexivity. }
    destruct Hcase as [-> | (s0 & He0 & Hsub)]; [reflexivity | ].
    destruct (decide (i = cursor)) as [-> | Hne].
    { exfalso. apply (Hno arg).
      apply list_elem_of_further, elem_of_app. left. exact Hf. }
    apply (IH (S cursor) (replacement arg current) s0 i); [lia | | exact He0].
    intros arg' Hin. apply (Hno arg').
    apply list_elem_of_further, elem_of_app. left. apply Hsub, Hin.
Qed.

(** Under the contract, what a stage returned without forwarding is the
    result of the chain. *)
Lemma chain_result (stages : list stage) :
  (∀ (st : stage) (params : value),
      st ∈ stages → obeys_contract NEXT (st params (VFun NEXT))) →
  ∀ (cursor : nat) (current : value) (s : St) (i : nat) (F : value),
    StageReturned i (Returned F)
    ∈ steps_of (exec_chain NEXT w cursor stages resolver current s) →
    (∀ arg : value,
        StageForwarded i arg
        ∉ steps_of (exec_chain NEXT w cursor stages resolver current s)) →
    result_of (exec_chain NEXT w cursor stages resolver current s) = Returned F.
Proof.
  induction stages as [ | st rest IH];
    intros contract cursor current s i F He Hno.
  - unfold steps_of in He. simpl in He.
    destruct (run w (resolver current) s) as [[r s1] t]. simpl in He.
    apply elem_of_cons in He as [He | He]; [discriminate He | ].
    apply quiet_map_asked in He. discriminate He.
  - unfold steps_of, result_of in *. simpl in *.
    pose proof (exec_stage_shape NEXT w cursor
                  (fun arg s0 =>
                     exec_chain NEXT w (S cursor) rest resolver
                       (replacement arg current) s0)
                  (st current (VFun NEXT))
                  (contract st current (list_elem_of_here _ _)) s) as Hsh.
    unfold steps_of, result_of in Hsh.
    destruct (exec_stage NEXT w cursor _ (st current (VFun NEXT)) s)
      as [[r s1] tb].
    simpl in *.
    apply elem_of_cons in He as [He | He]; [discriminate He | ].
    apply elem_of_app in He as [He | He].
    2: { apply elem_of_cons in He as [He | He].
         - injection He as _ <-. reflexivity.
         - apply elem_of_nil in He. destruct He. }
    destruct Hsh as [Hq | (asks & arg & s0 & Hq & Ht & Hr)].
    { apply Hq in He. discriminate He. }
    subst tb. apply elem_of_app in He as [He | He].
    { apply Hq in He. discriminate He. }
    apply elem_of_cons in He as [He | He]; [discriminate He | ].
    rewrite Hr.
    assert (∀ (st' : stage) (params : value),
               st' ∈ rest → obeys_contract NEXT (st' params (VFun NEXT)))
      as contract'.
    { intros st' params Hin. apply contract, list_elem_of_further, Hin. }
    apply (IH contract' (S cursor) (replacement arg current) s0 i F He).
    intros arg' Hin. apply (Hno arg').
    apply list_elem_of_further, elem_of_app. left.
    apply elem_of_app. right. apply list_elem_of_further, Hin.
Qed.

(** Under the contract, the executions of one invocation. *)
Lemma chain_counts (stages : list stage) :
  (∀ (st : stage) (params : value),
      st ∈ stages → obeys_contract NEXT (st params (VFun NEXT))) →
  ∀ (cursor : nat) (current : value) (s : St),
    (∀ i : nat,
        (count_steps (enters i)
           (steps_of (exec_chain NEXT w cursor stages resolver current s))
         ≤ 1)%nat)
    ∧ (∀ i : nat,
         (i < cursor)%nat →
         count_steps (enters i)
           (steps_of (exec_chain NEXT w cursor stages resolver current s))
         = 0%nat)
    ∧ (count_steps resolves
         (steps_of (exec_chain NEXT w cursor stages resolver current s))
       ≤ 1)%nat
    ∧ (count_steps enters_any
         (steps_of (exec_chain NEXT w cursor stages resolver current s))
       + count_steps resolves
           (steps_of (exec_chain NEXT w cursor stages resolver current s))
       ≤ length stages + 1)%nat.
Proof.
  assert (∀ i e, is_asked e = true → enters i e = false) as Hqe.
  { intros i e. destruct e; simpl; intros H; try discriminate H; reflexivity. }
  assert (∀ e, is_asked e = true → enters_any e = false) as Hqa.
  { intros e. destruct e; simpl; intros H; try discriminate H; reflexivity. }
  assert (∀ e, is_asked e = true → resolves e = false) as Hqr.
  { intros e. destruct e; simpl; intros H; try discriminate H; reflexivity. }
  induction stages as [ | st rest IH]; intros contract cursor current s.
  - unfold steps_of. cbn [exec_chain].
    destruct (run w (resolver current) s) as [[r s1] t]. cbn [fst snd].
    rewrite (count_steps_cons resolves), (count_steps_cons enters_any).
    rewrite (quiet_count resolves _ Hqr (quiet_map_asked t)).
    rewrite (quiet_count enters_any _ Hqa (quiet_map_asked t)).
    cbn [enters_any resolves].
    split; [ | split; [ | split; lia ] ].
    + intros i. rewrite count_steps_cons.
      rewrite (quiet_count (enters i) _ (Hqe i) (quiet_map_asked t)).
      simpl. lia.
    + intros i _. rewrite count_steps_cons.
      rewrite (quiet_count (enters i) _ (Hqe i) (quiet_map_asked t)).
      simpl. lia.
  - unfold steps_of, result_of in *. cbn [exec_chain].
    pose proof (exec_stage_shape NEXT w cursor
                  (fun arg s0 =>
                     exec_chain NEXT w (S cursor) rest resolver
                       (replacement arg current) s0)
                  (st current (VFun NEXT))
                  (contract st current (list_elem_of_here _ _)) s) as Hsh.
    unfold steps_of, result_of in Hsh.
    destruct (exec_stage NEXT w cursor _ (st current (VFun NEXT)) s)
      as [[r s1] tb].
    cbn [fst snd] in *.
    rewrite (count_steps_frame resolves), (count_steps_frame enters_any).
    assert (∀ i, count_steps (enters i)
                   (StageEntered cursor current :: tb ++ [StageReturned cursor r])
                 = ((if Nat.eqb i cursor then 1 else 0)
                    + count_steps (enters i) tb)%nat) as Hframe.
    { intros i. rewrite count_steps_frame. simpl. lia. }
    cbn [enters_any resolves].
    destruct Hsh as [Hq | (asks & arg & s0 & Hq & Ht & Hr)].
    + rewrite (quiet_count resolves _ Hqr Hq).
      rewrite (quiet_count enters_any _ Hqa Hq).
      split; [ | split; [ | split; lia ] ].
      * intros i. rewrite Hframe, (quiet_count (enters i) _ (Hqe i) Hq).
        destruct (Nat.eqb i cursor); lia.
      * intros i Hi. rewrite Hframe, (quiet_count (enters i) _ (Hqe i) Hq).
        destruct (Nat.eqb_spec i cursor); lia.
    + subst tb.
      assert (∀ (st' : stage) (params : value),
                 st' ∈ rest → obeys_contract NEXT (st' params (VFun NEXT)))
        as contract'.
      { intros st' params Hin. apply contract, list_elem_of_further, Hin. }
      destruct (IH contract' (S cursor) (replacement arg current) s0)
        as (IH1 & IH2 & IH3 & IH4).
      rewrite (count_steps_middle resolves), (count_steps_middle enters_any).
      rewrite (quiet_count resolves _ Hqr Hq).
      rewrite (quiet_count enters_any _ Hqa Hq).
      cbn [enters_any resolves length].
      split; [ | split; [ | split; lia ] ].
      * intros i. rewrite Hframe, count_steps_middle.
        rewrite (quiet_count (enters i) _ (Hqe i) Hq). simpl.
        destruct (Nat.eqb_spec i cursor) as [-> | Hne].
        -- rewrite (IH2 cursor) by lia. lia.
        -- specialize (IH1 i). lia.
      * intros i Hi. rewrite Hframe, count_steps_middle.
        rewrite (quiet_count (enters i) _ (Hqe i) Hq). simpl.
        destruct (Nat.eqb_spec i cursor); [lia | ].
        rewrite (IH2 i) by lia. lia.
Qed.

(** An invocation runs the first stage, or with no stage the resolver. *)
Lemma chain_runs (stages : list stage) (cursor : nat) (current : value)
    (s : St) :
  (1 ≤ count_steps enters_any
         (steps_of (exec_chain NEXT w cursor stages resolver current s))
       + count_steps resolves
           (steps_of (exec_chain NEXT w cursor stages resolver current s)))%nat.
Proof.
  unfold steps_of. destruct stages as [ | st rest]; cbn [exec_chain].
  - destruct (run w (resolver current) s) as [[r s1] t]. cbn [fst snd].
    rewrite (count_steps_cons resolves). cbn [resolves]. lia.
  - destruct (exec_stage NEXT w cursor _ (st current (VFun NEXT)) s)
      as [[r s1] tb].
    cbn [fst snd]. rewrite (count_steps_cons enters_any).
    cbn [enters_any]. lia.
Qed.

End ChainLemmas.

(** ** Two invocations *)

Section Agreement.

Context {St1 St2 : Type} (NEXT : fid) (w1 : @world St1) (w2 : @world St2).
Context (R : St1 → St2 → Prop).

Hypothesis same_behaviour :
  ∀ (f : fid) (arg : value) (s1 : St1) (s2 : St2),
    R s1 s2 →
    (w1 f arg s1).1 = (w2 f arg s2).1 ∧ R (w1 f arg s1).2 (w2 f arg s2).2.

Lemma run_agree (m : M value) :
  ∀ (s1 : St1) (s2 : St2),
    R s1 s2 →
    (run w1 m s1).1.1 = (run w2 m s2).1.1
    ∧ (run w1 m s1).2 = (run w2 m s2).2
    ∧ R (run w1 m s1).1.2 (run w2 m s2).1.2.
Proof.
  induction m as [v | e | f arg k IH]; intros s1 s2 HR; simpl; auto.
  destruct (same_behaviour f arg s1 s2 HR) as [Ho HR'].
  destruct (w1 f arg s1) as [[v1 | e1] s1'], (w2 f arg s2) as [[v2 | e2] s2'];
    simpl in Ho, HR'; try discriminate Ho; injection Ho as <-.
  - destruct (IH v1 s1' s2' HR') as (H1 & H2 & H3).
    destruct (run w1 (k v1) s1') as [[r1 t1] u1].
    destruct (run w2 (k v1) s2') as [[r2 t2] u2].
    simpl in *. subst. auto.
  - simpl. auto.
Qed.

Lemma exec_stage_agree (cursor : nat)
    (next1 : value → St1 → outcome value * St1 * list step)
    (next2 : value → St2 → outcome value * St2 * list step) (m : M value) :
  (∀ (arg : value) (s1 : St1) (s2 : St2),
      R s1 s2 →
      result_of (next1 arg s1) = result_of (next2 arg s2)
      ∧ steps_of (next1 arg s1) = steps_of (next2 arg s2)
      ∧ R (final_of (next1 arg s1)) (final_of (next2 arg s2))) →
  ∀ (s1 : St1) (s2 : St2),
    R s1 s2 →
    result_of (exec_stage NEXT w1 cursor next1 m s1) =
      result_of (exec_stage NEXT w2 cursor next2 m s2)
    ∧ steps_of (exec_stage NEXT w1 cursor next1 m s1) =
        steps_of (exec_stage NEXT w2 cursor next2 m s2)
    ∧ R (final_of (exec_stage NEXT w1 cursor next1 m s1))
        (final_of (exec_stage NEXT w2 cursor next2 m s2)).
Proof.
  intros Hnext. unfold result_of, steps_of, final_of in *.
  induction m as [v | e | f arg k IH]; intros s1 s2 HR; simpl; auto.
  destruct (Nat.eqb f NEXT).
  - destruct (Hnext arg s1 s2 HR) as (Ho & Ht & HR').
    destruct (next1 arg s1) as [[r1 s1'] t1].
    destruct (next2 arg s2) as [[r2 s2'] t2].
    simpl in Ho, Ht, HR'. subst r2 t2.
    destruct r1 as [v | e]; [ | simpl; auto ].
    destruct (IH v s1' s2' HR') as (H1 & H2 & H3).
    destruct (exec_stage NEXT w1 cursor next1 (k v) s1') as [[r1 u1] t1'].
    destruct (exec_stage NEXT w2 cursor next2 (k v) s2') as [[r2 u2] t2'].
    simpl in *. subst. auto.
  - destruct (same_behaviour f arg s1 s2 HR) as [Ho HR'].
    destruct (w1 f arg s1) as [[v1 | e1] s1'], (w2 f arg s2) as [[v2 | e2] s2'];
      simpl in Ho, HR'; try discriminate Ho; injection Ho as <-.
    + destruct (IH v1 s1' s2' HR') as (H1 & H2 & H3).
      destruct (exec_stage NEXT w1 cursor next1 (k v1) s1') as [[r1 u1] t1'].
      destruct (exec_stage NEXT w2 cursor next2 (k v1) s2') as [[r2 u2] t2'].
      simpl in *. subst. auto.
    + simpl. auto.
Qed.

Lemma exec_chain_agree (resolver : value → M value) (stages : list stage) :
  ∀ (cursor : nat) (current : value) (s1 : St1) (s2 : St2),
    R s1 s2 →
    result_of (exec_chain NEXT w1 cursor stages resolver current s1) =
      result_of (exec_chain NEXT w2 cursor stages resolver current s2)
    ∧ steps_of (exec_chain NEXT w1 cursor stages resolver current s1) =
        steps_of (exec_chain NEXT w2 cursor stages resolver current s2)
    ∧ R (final_of (exec_chain NEXT w1 cursor stages resolver current s1))
        (final_of (exec_chain NEXT w2 cursor stages resolver current s2)).
Proof.
  induction stages as [ | st rest IH]; intros cursor current s1 s2 HR.
  - unfold result_of, steps_of, final_of. simpl.
    destruct (run_agree (resolver current) s1 s2 HR) as (H1 & H2 & H3).
    destruct (run w1 (resolver current) s1) as [[r1 u1] t1].
    destruct (run w2 (resolver current) s2) as [[r2 u2] t2].
    simpl in *. subst. auto.
  - pose proof (exec_stage_agree cursor
                  (fun arg s0 =>
                     exec_chain NEXT w1 (S cursor) rest resolver
                       (replacement arg current) s0)
                  (fun arg s0 =>
                     exec_chain NEXT w2 (S cursor) rest resolver
                       (replacement arg current) s0)
                  (st current (VFun NEXT))
                  (fun arg => IH (S cursor) (replacement arg current))
                  s1 s2 HR) as (H1 & H2 & H3).
    unfold result_of, steps_of, final_of in *. simpl.
    destruct (exec_stage NEXT w1 cursor _ (st current (VFun NEXT)) s1)
      as [[r1 u1] t1].
    destruct (exec_stage NEXT w2 cursor _ (st current (VFun NEXT)) s2)
      as [[r2 u2] t2].
    simpl in *. subst. auto.
Qed.

End Agreement.

(** ** The middlewares of the module obey the contract *)

Lemma zod_obeys (NEXT f : fid) (params : value) :
  f ≠ NEXT →
  obeys_contract NEXT (as_stage (zod (extern_schema f)) params (VFun NEXT)).
Proof.
  intros Hf. unfold as_stage, zod, mbind, M_bind.
  cbn [get_prop lift bind safeParseAsync extern_schema extern].
  apply obeys_effect; [exact Hf | ]. intros result.
  cbn [bind].
  destruct (get_prop result "success") as [b | e];
    cbn [lift bind]; [ | apply obeys_fault ].
  destruct (truthy b).
  - rewrite lookup_insert_eq. cbn [from_option id lift bind call].
    apply obeys_forward.
  - destruct (get_prop result "error") as [cause | e]; cbn [lift bind].
    + apply obeys_return.
    + apply obeys_fault.
Qed.

Lemma contextSwapper_obeys (NEXT d : fid) (params : value) :
  d ≠ NEXT →
  obeys_contract NEXT
    (as_stage (contextSwapper (extern d)) params (VFun NEXT)).
Proof.
  intros Hd. unfold as_stage, contextSwapper, mbind, M_bind.
  cbn [bind extern].
  apply obeys_effect; [exact Hd | ]. intros result. cbn [bind].
  destruct (has_prop "ctx" result) as [[ | ] | e];
    cbn [lift bind get_prop]; [ | apply obeys_return | apply obeys_fault ].
  rewrite lookup_insert_eq. cbn [from_option id lift bind].
  destruct (get_prop result "ctx") as [ctx | e]; cbn [lift bind call].
  - apply obeys_forward.
  - apply obeys_fault.
Qed.

Lemma isAuthed_obeys (NEXT : fid) (params : value) :
  obeys_contract NEXT (as_stage isAuthed params (VFun NEXT)).
Proof.
  unfold as_stage, isAuthed, swapContext, contextSwapper, isAuthed_newContext.
  unfold mbind, M_bind.
  destruct (get_prop (VObj (<["next" := VFun NEXT]> (spread params))) "ctx")
    as [ctx | e]; cbn [lift bind]; [ | apply obeys_fault ].
  destruct (get_prop ctx "user") as [user | e];
    cbn [lift bind]; [ | apply obeys_fault ].
  destruct (truthy user); cbn [negb bind].
  - rewrite has_prop_singleton. cbn [lift bind get_prop].
    rewrite lookup_insert_eq, lookup_singleton_eq.
    cbn [from_option id lift bind call]. apply obeys_forward.
  - cbn [failure has_prop]. rewrite lookup_singleton_ne by discriminate.
    cbn [bool_decide lift bind]. apply obeys_return.
Qed.

Lemma app_stages_obey (st : stage) (params : value) :
  st ∈ app_stages → obeys_contract 9 (st params (VFun 9)).
Proof.
  unfold app_stages. intros Hin.
  apply elem_of_cons in Hin as [-> | Hin]; [apply zod_obeys; discriminate | ].
  apply elem_of_cons in Hin as [-> | Hin]; [apply isAuthed_obeys | ].
  apply elem_of_nil in Hin. destruct Hin.
Qed.

Lemma base_world_same_behaviour (f : fid) (arg : value) (s1 s2 : nat) :
  True →
  (base_world f arg s1).1 = (base_world f arg s2).1
  ∧ True.
Proof.
  intros _. split; [ | exact I ].
  unfold base_world. destruct f as [ | [ | [ | [ | f]]]]; reflexivity.
Qed.

(** ** The guarantees of the chain *)






